(** * CodeCollab backend: the room engine and the compile route of [index.js]

    A shallow embedding of the Socket.IO handlers registered under
    [io.on("connection")] and of the polling loop of [app.post("/compile")].

    Conventions of the embedding.
    - The [Room] collection carries a unique index on [roomId]; it is a finite
      map from [roomId] to the remaining fields of the document.
    - The [Remark] collection is the list of its documents in insertion order.
    - The closure variables [currentRoom], [currentUser] and [currentRole] of
      a connection are kept per socket id; [null] is [None].
    - Payload fields have the types of the wire contract (strings, and a
      number for [line]).
    - [run] is the schedule in which handlers do not overlap: each handler
      runs from its first statement to its last before the next event is
      handled.  Handlers that overlap at an [await] are not modelled, and
      every statement about [run] is a statement about that schedule.
    - A store call either answers or rejects; which of the two is an input of
      the handler ([Env]).  No handler of the source catches a rejection, so
      a rejecting call ends the handler at that statement.  [run] goes on
      with the next event in the world the handler left; [serve] stops
      there, as the Node process does by default when a promise is rejected
      and nothing handles it.  A world [serve] reaches is a world [run]
      reaches.
    - Socket.IO itself is modelled as far as the handlers use it: room
      membership ([socket.join], [socket.leave], the room of a socket's own
      id, leaving all rooms on close) and the three ways to emit.
    - Mongoose's own [_id] and [__v] fields are left out. *)

From Stdlib Require Import ZArith Ascii.
From stdpp Require Import gmap strings list fin_maps.

(** ** JavaScript values *)

(** The operand of a JavaScript condition: [null] and the empty string are
    falsy.  The result is the string when it is truthy. *)
Definition truthy (v : option string) : option string :=
  match v with
  | Some s => if bool_decide (s = "") then None else Some s
  | None => None
  end.

(** [a || b] on a string that can be [null] *)
Definition or_else (a : option string) (b : string) : string :=
  match truthy a with
  | Some x => x
  | None => b
  end.

Open Scope Z_scope.

(** * The compile route: definitions *)

Module Compile.

Section Route.

(** [Buffer.from(x, "base64").toString("utf-8")] *)
Variable decode : string → string.

(** The body of a poll answer of the execution service, as far as the
    handler reads it.  [stdout] and [stderr] are base64 text or [null]. *)
Record Result := mkResult {
  status_id : Z;
  status_description : string;
  stdout : option string;
  stderr : option string;
  memory : option Z;
  time : option string
}.

(** One poll: an answer with a status, or a fetch that fails (also a body
    without [status]), which throws into the [catch] of the handler. *)
Inductive Poll :=
  | answer (r : Result)
  | failure (message : string).

(** The reply to the submission: the fetch fails, or the body has a [token]
    and an [error], each possibly missing. *)
Inductive Submission :=
  | submit_failed (message : string)
  | submitted (token error : option string).

Inductive Response :=
  | ok (output status : string) (mem : option Z) (tm : option string)
  | bad_request (error : string)            (* res.status(400) *)
  | server_error (error : string).          (* res.status(500) *)

(** How the loop ends: on the poll with index [polled], after [slept]
    milliseconds of [sleep]. *)
Inductive Exit :=
  | completed (polled : nat) (slept : Z) (r : Result)
  | threw (polled : nat) (slept : Z) (message : string).

(** [while (true) { result = ...; if (result.status.id > 2) break;
    await sleep(2000); }], with [i] polls made and [slept] ms slept so far.
    [None]: the loop is still running when the fuel is spent. *)
Fixpoint poll_loop (fuel : nat) (polls : nat → Poll) (i : nat) (slept : Z)
  : option Exit :=
  match fuel with
  | O => None
  | S fuel' =>
      match polls i with
      | failure m => Some (threw i slept m)
      | answer r =>
          if 2 <? status_id r then Some (completed i slept r)
          else poll_loop fuel' polls (S i) (slept + 2000)
      end
  end.

(** [result.stdout ? Buffer.from(result.stdout, "base64").toString("utf-8") : null] *)
Definition decoded (field : option string) : option string :=
  match truthy field with
  | Some x => Some (decode x)
  | None => None
  end.

(** [output || error || "No output"] *)
Definition output_of (r : Result) : string :=
  or_else (decoded (stdout r)) (or_else (decoded (stderr r)) "No output").

(** The handler from the reply to the submission on: the response it sends
    and the time it slept.  The request body only decides what is sent to
    the service; the service's replies are inputs here. *)
Definition compile (fuel : nat) (sub : Submission) (polls : string → nat → Poll)
  : option (Response * Z) :=
  match sub with
  | submit_failed m => Some (server_error m, 0)
  | submitted token error =>
      match truthy token with
      | None => Some (bad_request (or_else error "Submission failed"), 0)
      | Some tok =>
          match poll_loop fuel (polls tok) 0 0 with
          | None => None
          | Some (completed _ slept r) =>
              Some (ok (output_of r) (status_description r) (memory r) (time r),
                    slept)
          | Some (threw _ slept m) => Some (server_error m, slept)
          end
      end
  end.

(** A poll that keeps the loop going. *)
Definition in_progress (p : Poll) : Prop :=
  ∃ r, p = answer r ∧ status_id r ≤ 2.

(** A poll that ends it with a result. *)
Definition finished (p : Poll) (r : Result) : Prop :=
  p = answer r ∧ 2 < status_id r.

End Route.

(** Three polls: in queue (1), processing (2), accepted (3). *)
Definition three_polls (tok : string) (i : nat) : Poll :=
  match i with
  | 0%nat => answer (mkResult 1 "In Queue" None None None None)
  | 1%nat => answer (mkResult 2 "Processing" None None None None)
  | _ => answer (mkResult 3 "Accepted" (Some "MQo=") None (Some 3300) (Some "0.01"))
  end.

(** Polls that fail on the second try. *)
Definition failing_polls (tok : string) (i : nat) : Poll :=
  match i with
  | 0%nat => answer (mkResult 1 "In Queue" None None None None)
  | _ => failure "socket hang up"
  end.

(** Polls that stay in the queue. *)
Definition queued_polls (tok : string) (i : nat) : Poll :=
  answer (mkResult 1 "In Queue" None None None None).



(** ** The submission request *)

(** The property names every object literal inherits from [Object.prototype];
    [map[lang]] finds them when [lang] is none of the keys of [map]. *)
Definition inherited_names : list string :=
  [ "constructor"; "__defineGetter__"; "__defineSetter__"; "hasOwnProperty";
    "__lookupGetter__"; "__lookupSetter__"; "isPrototypeOf";
    "propertyIsEnumerable"; "toString"; "valueOf"; "__proto__";
    "toLocaleString" ].

(** What [getLanguageId] returns: a number, or the inherited property that
    [map[lang]] found (a function or [Object.prototype], all truthy). *)
Inductive LanguageId :=
  | language_number (n : Z)
  | inherited_property (name : string).

(** [const map = { javascript: 63, python: 71, java: 62, cpp: 54,
    typescript: 74, c: 50 }] *)
Definition language_table : list (string * Z) :=
  [ ("javascript", 63); ("python", 71); ("java", 62); ("cpp", 54);
    ("typescript", 74); ("c", 50) ].

Definition language_ids : gmap string Z := list_to_map language_table.

(** [return map[lang] || 63] *)
Definition getLanguageId (lang : string) : LanguageId :=
  match language_ids !! lang with
  | Some n => if bool_decide (n = 0) then language_number 63 else language_number n
  | None =>
      if bool_decide (lang ∈ inherited_names) then inherited_property lang
      else language_number 63
  end.

(** The body of the POST to the execution service. *)
Record Request := mkRequest {
  source_code : string;
  language_id : LanguageId;
  stdin : option string
}.

Section Submit.

(** [Buffer.from(x).toString("base64")] and its inverse reading *)
Variable encode : string → string.
Variable decode : string → string.

(** [{ source_code: ..., language_id: getLanguageId(language),
    stdin: stdin ? ... : null }] *)
Definition request (language code : string) (input : option string) : Request :=
  mkRequest (encode code) (getLanguageId language) (encode <$> truthy input).

(** The whole handler: the request goes to the service, whose reply and
    poll answers are those of [service] and [polls]. *)
Definition compile_route (fuel : nat) (service : Request → Submission)
    (polls : string → nat → Poll) (language code : string) (input : option string)
  : option (Response * Z) :=
  compile decode fuel (service (request language code input)) polls.

End Submit.

(** A service that hands out the encoded source as token. *)
Definition echo_service (r : Request) : Submission :=
  submitted (Some (source_code r)) None.

End Compile.

Close Scope Z_scope.

(** * The room engine: definitions *)

Module Collab.

(** ** Documents *)

(** [roomSchema]; the [roomId] field is the key of the collection. *)
Record Room := mkRoom {
  users : list string;
  code : string;
  language : string
}.

(** [remarkSchema].  [userName] and [role] are copies of closure variables,
    which can be [null]. *)
Record Remark := mkRemark {
  roomId : string;
  userName : option string;
  role : option string;
  text : string;
  line : Z;
  createdAt : Z;
  resolved : bool
}.

(** [new Room({ roomId, users: [userName] })] with the schema defaults. *)
Definition new_Room (user : string) : Room :=
  mkRoom [user] "" "javascript".

(** ** Connections *)

(** One socket: Socket.IO's [connected] flag and the three closure variables
    of the connection handler. *)
Record Socket := mkSocket {
  connected : bool;
  currentRoom : option string;
  currentUser : option string;
  currentRole : option string
}.

(** [let currentRoom = null; let currentUser = null; let currentRole = null] *)
Definition fresh : Socket := mkSocket true None None None.

(** ** Emissions *)

Inductive Target :=
  | io_to (room : string)                 (* io.to(room).emit *)
  | socket_to (sid room : string)         (* socket.to(room).emit *)
  | socket_emit (sid : string).           (* socket.emit *)

Inductive Message :=
  | userJoined (us : list string)
  | codeUpdate (c : string)
  | languageUpdate (l : string)
  | remark_update (r : Remark).

(** An emission, with the sockets it reached when it was made. *)
Record Delivery := mkDelivery {
  target : Target;
  message : Message;
  receivers : gset string
}.

(** ** The state of the server *)

(** [adapter] is Socket.IO's room membership: the pairs (socket id, room). *)
Record World := mkWorld {
  rooms : gmap string Room;
  remarks : list Remark;
  sockets : gmap string Socket;
  adapter : gset (string * string)
}.

(** What the environment decides for one handler run: whether the query
    ([findOne]) answers, whether the write ([save], [findOneAndUpdate])
    answers, and [Date.now()]. *)
Record Env := mkEnv {
  find_ok : bool;
  write_ok : bool;
  now : Z
}.

(** ** Handler computations

    A handler threads the world, appends its emissions, and either returns
    or stops at a rejected [await]. *)

Inductive Completion (A : Type) :=
  | Returned (a : A)
  | Rejected.
Arguments Returned {A} a.
Arguments Rejected {A}.

Definition M (A : Type) : Type :=
  World → Completion A * World * list Delivery.

#[global] Instance M_ret : MRet M :=
  λ A a w, (Returned a, w, []).

#[global] Instance M_bind : MBind M :=
  λ A B k m w,
    match m w with
    | (Returned a, w1, out1) =>
        let '(c, w2, out2) := k a w1 in (c, w2, out1 ++ out2)
    | (Rejected, w1, out1) => (Rejected, w1, out1)
    end.

(** Sockets currently in a Socket.IO room. *)
Definition in_room (ad : gset (string * string)) (room : string) : gset string :=
  set_map fst (filter (λ p, p.2 = room) ad).

Definition resolve (ad : gset (string * string)) (t : Target) : gset string :=
  match t with
  | io_to room => in_room ad room
  | socket_to sid room => in_room ad room ∖ {[sid]}
  | socket_emit sid => {[sid]}
  end.

Definition emit (t : Target) (m : Message) : M unit :=
  λ w, (Returned (), w, [mkDelivery t m (resolve (adapter w) t)]).

(** [socket.join(room)] and [socket.leave(room)] *)
Definition socket_join (sid room : string) : M unit :=
  λ w, (Returned (),
        mkWorld (rooms w) (remarks w) (sockets w) ({[(sid, room)]} ∪ adapter w),
        []).

Definition socket_leave (sid room : string) : M unit :=
  λ w, (Returned (),
        mkWorld (rooms w) (remarks w) (sockets w) (adapter w ∖ {[(sid, room)]}),
        []).

(** Reading and assigning the closure variables of socket [sid]. *)
Definition closure (sid : string) : M Socket :=
  λ w, (Returned (default fresh (sockets w !! sid)), w, []).

Definition assign (sid : string) (r u ro : option string) : M unit :=
  λ w, (Returned (),
        mkWorld (rooms w) (remarks w)
                (<[sid := mkSocket (connected (default fresh (sockets w !! sid))) r u ro]>
                   (sockets w))
                (adapter w),
        []).

(** ** Store calls *)

(** [await Room.findOne({ roomId })] *)
Definition Room_findOne (env : Env) (rid : string) : M (option Room) :=
  λ w, if find_ok env then (Returned (rooms w !! rid), w, [])
       else (Rejected, w, []).

(** [await room.save()] for the document of room [rid]. *)
Definition Room_save (env : Env) (rid : string) (room : Room) : M unit :=
  λ w, if write_ok env
       then (Returned (),
             mkWorld (<[rid := room]> (rooms w)) (remarks w) (sockets w) (adapter w),
             [])
       else (Rejected, w, []).

(** [await remark.save()] *)
Definition Remark_save (env : Env) (r : Remark) : M unit :=
  λ w, if write_ok env
       then (Returned (),
             mkWorld (rooms w) (remarks w ++ [r]) (sockets w) (adapter w),
             [])
       else (Rejected, w, []).

(** [$pull: { users: user }] *)
Definition pull (user : string) (us : list string) : list string :=
  filter (λ u, u ≠ user) us.

(** [await Room.findOneAndUpdate({ roomId }, { $pull: { users } }, { new: true })]:
    the updated document, or [null] when no document has that [roomId]. *)
Definition Room_findOneAndUpdate_pull (env : Env) (rid user : string)
  : M (option Room) :=
  λ w, if write_ok env
       then match rooms w !! rid with
            | Some room =>
                let room' := mkRoom (pull user (users room)) (code room) (language room) in
                (Returned (Some room'),
                 mkWorld (<[rid := room']> (rooms w)) (remarks w) (sockets w) (adapter w),
                 [])
            | None => (Returned None, w, [])
            end
       else (Rejected, w, []).

(** ** The handlers of [io.on("connection", ...)] *)

(** [socket.on("join", ...)] *)
Definition on_join (env : Env) (sid rid user ro : string) : M unit :=
  assign sid (Some rid) (Some user) (Some ro) ;;
  socket_join sid rid ;;
  found ← Room_findOne env rid ;
  let room :=
    match found with
    | None => new_Room user
    | Some room =>
        if bool_decide (user ∈ users room) then room
        else mkRoom (users room ++ [user]) (code room) (language room)
    end in
  Room_save env rid room ;;
  emit (io_to rid) (userJoined (users room)) ;;
  emit (socket_emit sid) (codeUpdate (code room)) ;;
  emit (socket_emit sid) (languageUpdate (language room)).

(** [currentRole === "Developer" || currentRole === "Admin"] *)
Definition may_edit (s : Socket) : bool :=
  bool_decide (currentRole s = Some "Developer")
  || bool_decide (currentRole s = Some "Admin").

(** [socket.on("languageChange", ...)] *)
Definition on_languageChange (env : Env) (sid rid lang : string) : M unit :=
  s ← closure sid ;
  if may_edit s then
    found ← Room_findOne env rid ;
    match found with
    | Some room =>
        Room_save env rid (mkRoom (users room) (code room) lang) ;;
        emit (socket_to sid rid) (languageUpdate lang)
    | None => mret ()
    end
  else mret ().

(** [socket.on("codeChange", ...)] *)
Definition on_codeChange (env : Env) (sid rid c : string) : M unit :=
  s ← closure sid ;
  if may_edit s then
    found ← Room_findOne env rid ;
    match found with
    | Some room =>
        Room_save env rid (mkRoom (users room) c (language room)) ;;
        emit (socket_to sid rid) (codeUpdate c)
    | None => mret ()
    end
  else mret ().

(** [socket.on("remark:add", ...)] *)
Definition on_remark_add (env : Env) (sid rid txt : string) (ln : Z) : M unit :=
  s ← closure sid ;
  if bool_decide (currentRole s = Some "Tester") then
    let remark := mkRemark rid (currentUser s) (currentRole s) txt ln (now env) false in
    Remark_save env remark ;;
    emit (io_to rid) (remark_update remark)
  else mret ().

(** [handleUserExit] *)
Definition handleUserExit (env : Env) (sid : string) : M unit :=
  s ← closure sid ;
  match truthy (currentRoom s), truthy (currentUser s) with
  | Some room, Some user =>
      updatedRoom ← Room_findOneAndUpdate_pull env room user ;
      match updatedRoom with
      | Some updated => emit (io_to room) (userJoined (users updated))
      | None => mret ()
      end ;;
      socket_leave sid room ;;
      assign sid None None None
  | _, _ => mret ()
  end.

(** ** Dispatch *)

Inductive Event :=
  | connection
  | join (rid user ro : string)
  | languageChange (rid lang : string)
  | codeChange (rid c : string)
  | remark_add (rid txt : string) (ln : Z)
  | leaveRoom
  | disconnect.

(** [io.on("connection", (socket) => ...)]: a new socket with fresh closure
    variables; Socket.IO puts every socket in the room named by its own id. *)
Definition on_connection (sid : string) : M unit :=
  λ w, (Returned (),
        mkWorld (rooms w) (remarks w) (<[sid := fresh]> (sockets w))
                ({[(sid, sid)]} ∪ adapter w),
        []).

(** What Socket.IO does to a socket that closes, before the ["disconnect"]
    listeners run: it leaves all its rooms and is no longer connected. *)
Definition on_close (sid : string) : M unit :=
  λ w, let s := default fresh (sockets w !! sid) in
       (Returned (),
        mkWorld (rooms w) (remarks w)
                (<[sid := mkSocket false (currentRoom s) (currentUser s) (currentRole s)]>
                   (sockets w))
                (filter (λ p, p.1 ≠ sid) (adapter w)),
        []).

(** [socket.on("disconnect", ...)] *)
Definition on_disconnect (env : Env) (sid : string) : M unit :=
  on_close sid ;; handleUserExit env sid.

(** The listener that socket [sid] runs for an event. *)
Definition listener (env : Env) (sid : string) (ev : Event) : M unit :=
  match ev with
  | connection => mret ()
  | join rid user ro => on_join env sid rid user ro
  | languageChange rid lang => on_languageChange env sid rid lang
  | codeChange rid c => on_codeChange env sid rid c
  | remark_add rid txt ln => on_remark_add env sid rid txt ln
  | leaveRoom => handleUserExit env sid
  | disconnect => on_disconnect env sid
  end.

(** One event of socket [sid].  Only connected sockets have listeners; a
    connection makes a socket under an id that is not in use. *)
Definition handle (env : Env) (sid : string) (ev : Event) : M unit :=
  λ w, match sockets w !! sid, ev with
       | None, connection => on_connection sid w
       | Some s, _ => if connected s then listener env sid ev w
                      else (Returned (), w, [])
       | None, _ => (Returned (), w, [])
       end.

(** A run of the server over a sequence of events. *)
Definition Input : Type := Env * string * Event.

Fixpoint run (tr : list Input) (w : World) : World * list Delivery :=
  match tr with
  | [] => (w, [])
  | (env, sid, ev) :: tr' =>
      let '(_, w1, out1) := handle env sid ev w in
      let '(w2, out2) := run tr' w1 in
      (w2, out1 ++ out2)
  end.

Definition world_after (tr : list Input) (w : World) : World := (run tr w).1.

(** The server before any connection. *)
Definition boot : World := mkWorld ∅ [] ∅ ∅.

(** The store answers every call. *)
Definition store_up (env : Env) : Prop :=
  find_ok env = true ∧ write_ok env = true.

Definition up (t : Z) : Env := mkEnv true true t.

(** ** Scenario of the specification, section 8 *)

Definition scenario : list Input :=
  [ (up 1, "A", connection);
    (up 2, "A", join "R1" "alice" "Admin");
    (up 3, "B", connection);
    (up 4, "B", join "R1" "bob" "Tester");
    (up 5, "A", codeChange "R1" "print(1)");
    (up 6, "B", remark_add "R1" "check this" 1);
    (up 7, "A", disconnect) ].

Definition store_down (t : Z) : Env := mkEnv true false t.

(** Worlds along the scenario: after A connects, after A joins as Admin,
    after B joins as Tester, after A's codeChange. *)
Definition world_with_socket : World := world_after (take 1 scenario) boot.
Definition world_with_admin : World := world_after (take 2 scenario) boot.
Definition world_with_tester : World := world_after (take 4 scenario) boot.
Definition world_with_code : World := world_after (take 5 scenario) boot.


(** ** Vocabulary of the properties *)

(** The worlds the server can be in. *)
Definition reachable (w : World) : Prop := ∃ tr, w = world_after tr boot.

(** A connected socket is in the Socket.IO room its [currentRoom] names. *)
Definition tracks (w : World) : Prop :=
  ∀ sid s room,
    sockets w !! sid = Some s → connected s = true →
    currentRoom s = Some room → (sid, room) ∈ adapter w.

(** The document that replaces [old] (or is inserted, when there is none)
    under [rid], for each write the handlers make. *)
Inductive RoomWrite (rid : string) : Event → option Room → Room → Prop :=
  | write_created user ro :
      RoomWrite rid (join rid user ro) None (new_Room user)
  | write_pushed user ro old :
      user ∉ users old →
      RoomWrite rid (join rid user ro) (Some old)
        (mkRoom (users old ++ [user]) (code old) (language old))
  | write_code c old :
      RoomWrite rid (codeChange rid c) (Some old)
        (mkRoom (users old) c (language old))
  | write_language lang old :
      RoomWrite rid (languageChange rid lang) (Some old)
        (mkRoom (users old) (code old) lang)
  | write_pulled ev user old :
      ev = leaveRoom ∨ ev = disconnect →
      RoomWrite rid ev (Some old)
        (mkRoom (pull user (users old)) (code old) (language old)).

(** The world in which socket [sid] has [cr] as its [currentRoom] and
    everything else is as in [w]. *)
Definition relocate (sid : string) (cr : option string) (w : World) : World :=
  match sockets w !! sid with
  | Some s =>
      mkWorld (rooms w) (remarks w)
        (<[sid := mkSocket (connected s) cr (currentUser s) (currentRole s)]> (sockets w))
        (adapter w)
  | None => w
  end.

(** The three events that carry the [roomId] they act on. *)
Definition names_its_room (ev : Event) : bool :=
  match ev with
  | codeChange _ _ | languageChange _ _ | remark_add _ _ _ => true
  | _ => false
  end.

(** The events that write the code or the language of room [rid]. *)
Definition edits (rid : string) (ev : Event) : bool :=
  match ev with
  | codeChange r _ | languageChange r _ => bool_decide (r = rid)
  | _ => false
  end.

(** The events whose handler saves a document. *)
Definition mutating (ev : Event) : bool :=
  match ev with
  | join _ _ _ | codeChange _ _ | languageChange _ _ | remark_add _ _ _ => true
  | _ => false
  end.

(** The handler of socket [s] gets as far as its [save]. *)
Definition reaches_save (env : Env) (s : Socket) (w : World) (ev : Event) : bool :=
  match ev with
  | join _ _ _ => find_ok env
  | codeChange rid _ | languageChange rid _ =>
      may_edit s && find_ok env && bool_decide (is_Some (rooms w !! rid))
  | remark_add _ _ _ => bool_decide (currentRole s = Some "Tester")
  | _ => false
  end.

(** An emission that reaches socket [sid]. *)
Definition reaches (sid : string) (out : list Delivery) : Prop :=
  ∃ d, d ∈ out ∧ sid ∈ receivers d.

(** The closure variables of a socket are set together and cleared
    together. *)
Definition all_or_none (s : Socket) : Prop :=
  (currentRoom s = None ∧ currentUser s = None ∧ currentRole s = None) ∨
  (is_Some (currentRoom s) ∧ is_Some (currentUser s) ∧ is_Some (currentRole s)).

(** Socket [sid] is connected in [w]. *)
Definition online (w : World) (sid : string) : Prop :=
  ∃ s, sockets w !! sid = Some s ∧ connected s = true.


(** The events of socket [sid] that can write Room [rid]: those that name
    it, and the exits of a socket whose [currentRoom] it is. *)
Definition touches (w : World) (sid rid : string) (ev : Event) : Prop :=
  match ev with
  | join r _ _ | codeChange r _ | languageChange r _ => r = rid
  | leaveRoom | disconnect =>
      ∃ s, sockets w !! sid = Some s ∧ currentRoom s = Some rid
  | _ => False
  end.

(** Two sockets under one name in "R1". *)
Definition world_with_namesakes : World :=
  world_after [ (up 1, "A", connection); (up 2, "A", join "R1" "sam" "Developer");
                (up 3, "B", connection); (up 4, "B", join "R1" "sam" "Tester") ] boot.

(** ** The process

    The handlers are [async] functions without [try]/[catch], and the file
    registers no [unhandledRejection] listener: the promise of a handler
    that stops at a rejected [await] is rejected and unhandled, and Node's
    default is to end the process.  [serve] handles events one after the
    other up to and including the first handler that is rejected; the flag
    says whether the process is still up. *)
Fixpoint serve (tr : list Input) (w : World) : bool * World * list Delivery :=
  match tr with
  | [] => (true, w, [])
  | (env, sid, ev) :: tr' =>
      match handle env sid ev w with
      | (Returned _, w1, out1) =>
          let '(alive, w2, out2) := serve tr' w1 in (alive, w2, out1 ++ out2)
      | (Rejected, w1, out1) => (false, w1, out1)
      end
  end.

End Collab.

(** * Accounts and tokens: definitions

    The routes [/api/register], [/api/login] and [/api/admin-only] with the
    middleware [authMiddleware] and [checkRole].  bcrypt and jsonwebtoken
    are parameters.  The [User] collection is the list of its documents in
    insertion order; its schema makes [userName], [email] and
    [passwordHash] required, keeps [role] within three values with
    "Developer" as default, and puts a unique index on [userName] and on
    [email].  A body field that is absent is [None]; JSON [null] is not
    modelled. *)

Module Auth.

(** [userSchema] *)
Record User := mkUser {
  userName : string;
  email : string;
  passwordHash : string;
  role : string
}.

(** [enum: ["Admin", "Developer", "Tester"]] *)
Definition roles : list string := ["Admin"; "Developer"; "Tester"].

(** The payload of a token, as far as the routes read it; [id] is left
    out with Mongoose's [_id]. *)
Record Claims := mkClaims {
  token_userName : string;
  token_role : string
}.

(** Why a route answers with [err.message]. *)
Inductive Cause :=
  | illegal_arguments       (* bcrypt given something that is no string *)
  | validation              (* a required path is missing, or the enum *)
  | duplicate_key           (* a unique index *)
  | store_unavailable.

Inductive Reply :=
  | json (status : Z) (key value : string)      (* one-field bodies *)
  | failed (status : Z) (cause : Cause)         (* { error: err.message } *)
  | session (token role_ userName_ : string)    (* { token, role, userName } *)
  | unhandled.                                  (* the handler threw *)

(** The part of an Express request the middleware read and write. *)
Record Req := mkReq {
  authorization : option string;     (* req.headers["authorization"] *)
  user : option Claims               (* req.user *)
}.

(** [s.split(" ")] *)
Fixpoint split_space (s : string) : list string :=
  match s with
  | EmptyString => [EmptyString]
  | String c rest =>
      if bool_decide (c = " "%char) then EmptyString :: split_space rest
      else match split_space rest with
           | field :: fields => String c field :: fields
           | [] => [String c EmptyString]
           end
  end.

(** A header value: a scheme, a space, the rest. *)
Definition header (scheme rest : string) : string :=
  (scheme ++ String " " rest)%string.

(** No space in a string. *)
Fixpoint spaceless (s : string) : bool :=
  match s with
  | EmptyString => true
  | String c rest => negb (bool_decide (c = " "%char)) && spaceless rest
  end.

(** What the schema and its indexes keep true of every document. *)
Definition well_kept (db : list User) : Prop :=
  NoDup (userName <$> db) ∧ NoDup (email <$> db) ∧
  Forall (λ u, role u ∈ roles ∧ userName u ≠ "" ∧ email u ≠ "" ∧ passwordHash u ≠ "") db.

(** The body of [/api/register]: a field is [Some] of the string given, or
    [None] when the body does not have it ([undefined] after the
    destructuring). *)
Record Registration := mkRegistration {
  new_userName : option string;
  new_email : option string;
  new_password : option string;
  new_role : option string
}.

Section Routes.

(** [bcrypt.hash(password, 10)], which draws a salt, and [bcrypt.compare] *)
Variable hash : string → string → string.
Variable compare : string → string → bool.

(** [jwt.sign(payload, secret, { expiresIn: "8h" })] at a time, with
    [JWT_SECRET] set so that it returns a token, and
    [jwt.verify(token, secret)] at a time; [None] when it throws. *)
Variable sign : Z → Claims → string.
Variable verify : Z → string → option Claims.

(** [req.headers["authorization"]?.split(" ")[1]] *)
Definition bearer (req : Req) : option string :=
  h ← authorization req ; split_space h !! 1%nat.

(** [authMiddleware]: the reply it sends, or the request it hands to
    [next()]. *)
Definition authMiddleware (now : Z) (req : Req) : Reply + Req :=
  match truthy (bearer req) with
  | None => inl (json 401 "error" "Token missing")
  | Some token =>
      match verify now token with
      | Some decoded => inr (mkReq (authorization req) (Some decoded))
      | None => inl (json 401 "error" "Invalid token")
      end
  end.

(** [checkRole(role)] *)
Definition checkRole (wanted : string) (req : Req) : Reply + Req :=
  match user req with
  | None => inl (json 401 "error" "Unauthorized")
  | Some u =>
      if bool_decide (token_role u = wanted) then inr req
      else inl (json 403 "error" "Access denied")
  end.

(** [app.get("/api/admin-only", authMiddleware, checkRole("Admin"), ...)] *)
Definition admin_only (now : Z) (req : Req) : Reply :=
  match authMiddleware now req with
  | inl reply => reply
  | inr req1 =>
      match checkRole "Admin" req1 with
      | inl reply => reply
      | inr req2 =>
          match user req2 with
          | Some u => json 200 "message" ("Hello Admin " ++ token_userName u)
          | None => unhandled
          end
      end
  end.

(** [app.post("/api/register", ...)]: the reply and the collection after
    it.  [salt] is the salt bcrypt draws, [store_ok] whether the store
    answers.  The validators are the ones [userSchema] declares ([required],
    [enum], [default]), and its two [unique] indexes are in place. *)
Definition register (salt : string) (store_ok : bool) (body : Registration)
    (db : list User) : Reply * list User :=
  match new_password body with
  | None => (failed 400 illegal_arguments, db)
  | Some password =>
      let hashed := hash salt password in
      let role := default "Developer" (new_role body) in
      match truthy (new_userName body), truthy (new_email body), truthy (Some hashed) with
      | Some name, Some mail, Some _ =>
          if bool_decide (role ∈ roles) then
            if store_ok then
              if bool_decide (name ∈ userName <$> db)
                 || bool_decide (mail ∈ email <$> db)
              then (failed 400 duplicate_key, db)
              else (json 201 "message" "User created successfully",
                    db ++ [mkUser name mail hashed role])
            else (failed 400 store_unavailable, db)
          else (failed 400 validation, db)
      | _, _, _ => (failed 400 validation, db)
      end
  end.

(** [User.findOne({ email })] *)
Definition findOne_email (mail : string) (db : list User) : option User :=
  snd <$> list_find (λ u, email u = mail) db.

(** [app.post("/api/login", ...)] for a body with an email. *)
Definition login (now : Z) (store_ok : bool) (mail : string)
    (password : option string) (db : list User) : Reply :=
  if store_ok then
    match findOne_email mail db with
    | None => json 400 "error" "Invalid credentials"
    | Some u =>
        match password with
        | None => failed 500 illegal_arguments
        | Some p =>
            if compare p (passwordHash u)
            then session (sign now (mkClaims (userName u) (role u))) (role u) (userName u)
            else json 400 "error" "Invalid credentials"
        end
    end
  else failed 500 store_unavailable.

(** The collection after a sequence of registrations. *)
Fixpoint register_all (reqs : list (string * bool * Registration)) (db : list User)
  : list User :=
  match reqs with
  | [] => db
  | (salt, store_ok, body) :: reqs' => register_all reqs' (register salt store_ok body db).2
  end.

End Routes.

(** Toy instances of the libraries, for examples: the hash is the salt
    followed by the password, one token is known. *)
Definition toy_hash (salt password : string) : string := salt ++ password.
Definition toy_compare (password hashed : string) : bool :=
  bool_decide (hashed = ("s4lt" ++ password)%string).
Definition toy_sign (now : Z) (c : Claims) : string := "t0k.en".
Definition toy_verify (now : Z) (token : string) : option Claims :=
  if bool_decide (token = "t0k.en") then Some (mkClaims "root" "Admin") else None.

Definition root_body : Registration :=
  mkRegistration (Some "root") (Some "root@example.org") (Some "pw") (Some "Admin").

End Auth.

(** * Properties of the compile route *)

Module CompileProps.
Import Compile.

Open Scope Z_scope.

Section Route.

Variable decode : string → string.


Lemma poll_loop_still_running polls k : ∀ fuel i slept,
  (∀ j, (j < k)%nat → in_progress (polls (i + j)%nat)) →
  (fuel ≤ k)%nat →
  poll_loop fuel polls i slept = None.
Proof.
  induction k as [|k IH]; intros fuel i slept Hbefore Hfuel.
  - by replace fuel with 0%nat by lia.
  - destruct fuel as [|fuel]; [done|]. simpl.
    destruct (Hbefore 0%nat) as (r0 & H0 & Hlow); [lia|].
    rewrite Nat.add_0_r in H0. rewrite H0.
    apply Z.ltb_ge in Hlow. rewrite Hlow.
    apply IH; [|lia].
    intros j Hj. replace (S i + j)%nat with (i + S j)%nat by lia.
    apply Hbefore. lia.
Qed.




End Route.



Example three_polls_run :
  compile (λ x, x) 10 (submitted (Some "t0k") None) three_polls
  = Some (ok "MQo=" "Accepted" (Some 3300) (Some "0.01"), 4000).
Proof. reflexivity. Qed.

(** ** The language table *)

Lemma language_ids_lookup lang n :
  language_ids !! lang = Some n → (lang, n) ∈ language_table.
Proof.
  intros H. apply elem_of_list_to_map; [|done].
  by apply (bool_decide_unpack _).
Qed.

Lemma getLanguageId_default lang :
  lang ∉ language_table.*1 → lang ∉ inherited_names →
  getLanguageId lang = language_number 63.
Proof.
  intros Hout Hown. unfold getLanguageId.
  destruct (language_ids !! lang) as [n|] eqn:Hl.
  - apply language_ids_lookup in Hl. exfalso. apply Hout.
    apply list_elem_of_fmap. by exists (lang, n).
  - by rewrite bool_decide_eq_false_2.
Qed.

(** X1.  [getLanguageId] gives the six names of its table their ids, no two
    of them the same id; every other name gets 63, the id of "javascript",
    unless it is the name of a property inherited from [Object.prototype],
    for which the result is that property and not a number. *)
Theorem getLanguageId_falls_back_to_63 lang :
  (∀ n, (lang, n) ∈ language_table → getLanguageId lang = language_number n) ∧
  (∀ other n, (lang, n) ∈ language_table → (other, n) ∈ language_table →
              other = lang) ∧
  (lang ∉ language_table.*1 → lang ∉ inherited_names →
   getLanguageId lang = language_number 63) ∧
  (lang ∈ inherited_names → getLanguageId lang = inherited_property lang).
Proof.
  split; [|split; [|split]].
  - intros n Hin. unfold language_table in Hin.
    repeat (apply elem_of_cons in Hin as [Heq|Hin]; [by simplify_eq|]).
    by apply elem_of_nil in Hin.
  - intros other n Hin Hin'. unfold language_table in Hin, Hin'.
    repeat (apply elem_of_cons in Hin as [Heq|Hin];
            [simplify_eq;
             repeat (apply elem_of_cons in Hin' as [Heq'|Hin']; [by simplify_eq|]);
             by apply elem_of_nil in Hin'|]).
    by apply elem_of_nil in Hin.
  - apply getLanguageId_default.
  - intros Hin. unfold inherited_names in Hin.
    repeat (apply elem_of_cons in Hin as [->|Hin]; [done|]).
    by apply elem_of_nil in Hin.
Qed.

Lemma getLanguageId_falls_back_to_63_witness :
  getLanguageId "ruby" = language_number 63 ∧
  getLanguageId "toString" = inherited_property "toString".
Proof.
  destruct (getLanguageId_falls_back_to_63 "ruby") as (_ & _ & Hdefault & _).
  destruct (getLanguageId_falls_back_to_63 "toString") as (_ & _ & _ & Hinh).
  split.
  - apply Hdefault; by apply (bool_decide_unpack _).
  - apply Hinh. by apply (bool_decide_unpack _).
Defined.

Section Submit.

Variable encode : string → string.
Variable decode : string → string.

(** X2.  A language that is neither in the table nor an inherited property
    name is submitted as JavaScript: for the same code and input the handler
    answers what it answers for "javascript", whatever the service does. *)
Theorem unknown_language_runs_as_javascript fuel service polls lang code input :
  lang ∉ language_table.*1 → lang ∉ inherited_names →
  compile_route encode decode fuel service polls lang code input
  = compile_route encode decode fuel service polls "javascript" code input.
Proof.
  intros Hout Hown. unfold compile_route, request.
  by rewrite getLanguageId_default.
Qed.

(** ** The loop, read backwards *)

Lemma poll_loop_completed polls r : ∀ fuel i slept j slept',
  poll_loop fuel polls i slept = Some (completed j slept' r) →
  ∃ k, j = (i + k)%nat ∧ slept' = slept + 2000 * Z.of_nat k ∧ (k < fuel)%nat ∧
       finished (polls (i + k)%nat) r ∧
       ∀ l, (l < k)%nat → in_progress (polls (i + l)%nat).
Proof.
  induction fuel as [|fuel IH]; intros i slept j slept' Hrun; [done|].
  simpl in Hrun. destruct (polls i) as [r0|m] eqn:Hi; [|done].
  destruct (2 <? status_id r0) eqn:Hdone.
  - injection Hrun as <- <- <-. exists 0%nat.
    rewrite Nat.add_0_r. apply Z.ltb_lt in Hdone.
    repeat split; try lia; done.
  - apply IH in Hrun as (k & -> & -> & Hk & Hfin & Hbefore).
    exists (S k). replace (i + S k)%nat with (S i + k)%nat by lia.
    repeat split; try lia; try apply Hfin.
    intros l Hl. destruct l as [|l].
    + rewrite Nat.add_0_r. exists r0. split; [done|]. by apply Z.ltb_ge.
    + replace (i + S l)%nat with (S i + l)%nat by lia. apply Hbefore. lia.
Qed.

Lemma poll_loop_threw polls m : ∀ fuel i slept j slept',
  poll_loop fuel polls i slept = Some (threw j slept' m) →
  ∃ k, j = (i + k)%nat ∧ slept' = slept + 2000 * Z.of_nat k ∧ (k < fuel)%nat ∧
       polls (i + k)%nat = failure m ∧
       ∀ l, (l < k)%nat → in_progress (polls (i + l)%nat).
Proof.
  induction fuel as [|fuel IH]; intros i slept j slept' Hrun; [done|].
  simpl in Hrun. destruct (polls i) as [r0|m0] eqn:Hi.
  - destruct (2 <? status_id r0) eqn:Hdone; [done|].
    apply IH in Hrun as (k & -> & -> & Hk & Hfail & Hbefore).
    exists (S k). replace (i + S k)%nat with (S i + k)%nat by lia.
    repeat split; try lia; try done.
    intros l Hl. destruct l as [|l].
    + rewrite Nat.add_0_r. exists r0. split; [done|]. by apply Z.ltb_ge.
    + replace (i + S l)%nat with (S i + l)%nat by lia. apply Hbefore. lia.
  - injection Hrun as <- <- <-. exists 0%nat.
    rewrite Nat.add_0_r. repeat split; try lia; done.
Qed.

Lemma poll_loop_fails polls m k : ∀ fuel i slept,
  (∀ j, (j < k)%nat → in_progress (polls (i + j)%nat)) →
  polls (i + k)%nat = failure m →
  (k < fuel)%nat →
  poll_loop fuel polls i slept = Some (threw (i + k) (slept + 2000 * Z.of_nat k) m).
Proof.
  induction k as [|k IH]; intros fuel i slept Hbefore Hk Hfuel.
  - destruct fuel as [|fuel]; [lia|]. simpl.
    rewrite Nat.add_0_r in Hk. rewrite Hk.
    by rewrite Nat.add_0_r, Z.mul_0_r, Z.add_0_r.
  - destruct fuel as [|fuel]; [lia|]. simpl.
    destruct (Hbefore 0%nat) as (r0 & H0 & Hlow); [lia|].
    rewrite Nat.add_0_r in H0. rewrite H0.
    apply Z.ltb_ge in Hlow. rewrite Hlow.
    rewrite (IH fuel (S i) (slept + 2000)).
    + do 2 f_equal; lia.
    + intros j Hj. replace (S i + j)%nat with (i + S j)%nat by lia.
      apply Hbefore. lia.
    + by replace (S i + k)%nat with (i + S k)%nat by lia.
    + lia.
Qed.

Lemma truthy_Some v x : truthy v = Some x → v = Some x ∧ x ≠ "".
Proof.
  destruct v as [y|]; simpl; [|done].
  case_bool_decide; [done|]. by intros [= ->].
Qed.

(** X3.  The handler has a token and the service never gets past status 2:
    the loop has no exit, and the handler never responds, however long it
    runs. *)
Theorem compile_never_answers_while_in_progress polls tok error :
  tok ≠ "" →
  (∀ i, in_progress (polls tok i)) →
  ∀ fuel, compile decode fuel (submitted (Some tok) error) polls = None.
Proof.
  intros Htok Hall fuel. unfold compile. simpl.
  rewrite bool_decide_eq_false_2 by done.
  rewrite (poll_loop_still_running (polls tok) fuel); [done| |lia].
  intros j _. apply Hall.
Qed.

(** X4.  The handler has a token and a poll fails (the fetch rejects, or the
    body has no status) after polls that were all in progress: the handler
    makes no further poll and responds 500 with the message of that failure,
    having slept 2000 ms after each of the earlier polls. *)
Theorem compile_answers_500_at_failed_poll polls tok error k m :
  tok ≠ "" →
  (∀ i, (i < k)%nat → in_progress (polls tok i)) →
  polls tok k = failure m →
  (∀ fuel, (k < fuel)%nat →
     compile decode fuel (submitted (Some tok) error) polls
     = Some (server_error m, 2000 * Z.of_nat k)) ∧
  (∀ fuel, (fuel ≤ k)%nat →
     compile decode fuel (submitted (Some tok) error) polls = None).
Proof.
  intros Htok Hbefore Hk. split; intros fuel Hfuel; unfold compile; simpl;
    rewrite bool_decide_eq_false_2 by done.
  - by rewrite (poll_loop_fails (polls tok) m k fuel 0%nat 0).
  - by rewrite (poll_loop_still_running (polls tok) k).
Qed.

(** X5.  Every response of the handler has its cause.  A 200 carries the
    fields of the first answer whose status id is above 2, all polls before
    it were in progress and 2000 ms were slept after each.  A 400 means the
    submission came back without a token and nothing was polled.  A 500
    carries the message of the failed submission, or of the first poll that
    failed after in-progress polls. *)
Theorem compile_response_has_its_cause fuel sub polls resp slept :
  compile decode fuel sub polls = Some (resp, slept) →
  match resp with
  | ok output status mem tm =>
      ∃ tok error m r,
        sub = submitted (Some tok) error ∧ tok ≠ "" ∧
        finished (polls tok m) r ∧
        (∀ i, (i < m)%nat → in_progress (polls tok i)) ∧
        slept = 2000 * Z.of_nat m ∧
        output = output_of decode r ∧ status = status_description r ∧
        mem = memory r ∧ tm = time r
  | bad_request e =>
      ∃ token error,
        sub = submitted token error ∧ truthy token = None ∧
        e = or_else error "Submission failed" ∧ slept = 0
  | server_error e =>
      (sub = submit_failed e ∧ slept = 0) ∨
      ∃ tok error k,
        sub = submitted (Some tok) error ∧ tok ≠ "" ∧
        polls tok k = failure e ∧
        (∀ i, (i < k)%nat → in_progress (polls tok i)) ∧
        slept = 2000 * Z.of_nat k
  end.
Proof.
  intros Hrun. unfold compile in Hrun.
  destruct sub as [m0|token error].
  { injection Hrun as <- <-. by left. }
  destruct (truthy token) as [tok|] eqn:Htok.
  2:{ injection Hrun as <- <-. by exists token, error. }
  apply truthy_Some in Htok as [-> Hne].
  destruct (poll_loop fuel (polls tok) 0 0) as [[j s r|j s m]|] eqn:Hloop; [| |done].
  - injection Hrun as <- <-.
    apply poll_loop_completed in Hloop as (k & _ & -> & _ & Hfin & Hbefore).
    exists tok, error, k, r. repeat split; try done; apply Hfin.
  - injection Hrun as <- <-. right.
    apply poll_loop_threw in Hloop as (k & _ & -> & _ & Hfail & Hbefore).
    exists tok, error, k. by repeat split.
Qed.

(** X6.  The output of a 200 is never the empty string: it is the decoded
    stdout when that is not empty, otherwise the decoded stderr when that is
    not empty, otherwise "No output". *)
Theorem output_is_never_empty r :
  output_of decode r ≠ "" ∧
  (∀ out, truthy (decoded decode (stdout r)) = Some out →
          output_of decode r = out) ∧
  (∀ err, truthy (decoded decode (stdout r)) = None →
          truthy (decoded decode (stderr r)) = Some err →
          output_of decode r = err) ∧
  (truthy (decoded decode (stdout r)) = None →
   truthy (decoded decode (stderr r)) = None →
   output_of decode r = "No output").
Proof.
  unfold output_of, or_else.
  destruct (truthy (decoded decode (stdout r))) as [out|] eqn:Hout;
    [|destruct (truthy (decoded decode (stderr r))) as [err|] eqn:Herr].
  - apply truthy_Some in Hout as [_ Hne]. repeat split; try done.
    by intros ? [= ->].
  - apply truthy_Some in Herr as [_ Hne]. repeat split; try done.
    by intros ? _ [= ->].
  - repeat split; done.
Qed.

End Submit.

Lemma output_is_never_empty_witness :
  output_of (λ x, x) (mkResult 11 "Runtime Error (NZEC)" None (Some "RXJy") None None)
  = "RXJy".
Proof.
  destruct (output_is_never_empty (λ x, x)
              (mkResult 11 "Runtime Error (NZEC)" None (Some "RXJy") None None))
    as (_ & _ & Herr & _).
  apply Herr; reflexivity.
Defined.

Lemma unknown_language_runs_as_javascript_witness :
  compile_route (λ x, x) (λ x, x) 10 echo_service three_polls "ruby" "puts 1" None
  = compile_route (λ x, x) (λ x, x) 10 echo_service three_polls "javascript" "puts 1" None.
Proof.
  apply unknown_language_runs_as_javascript; by apply (bool_decide_unpack _).
Defined.

Lemma compile_never_answers_while_in_progress_witness :
  compile (λ x, x) 1000 (submitted (Some "t0k") None) queued_polls = None.
Proof.
  apply (compile_never_answers_while_in_progress (λ x, x) queued_polls "t0k" None).
  - discriminate.
  - intros i. eexists. split; [reflexivity|]. simpl. lia.
Defined.

Lemma compile_answers_500_at_failed_poll_witness :
  compile (λ x, x) 5 (submitted (Some "t0k") None) failing_polls
  = Some (server_error "socket hang up", 2000).
Proof.
  destruct (compile_answers_500_at_failed_poll (λ x, x) failing_polls "t0k" None 1
              "socket hang up") as [Hrun _].
  - discriminate.
  - intros i Hi. assert (i = 0%nat) as -> by lia.
    eexists. split; [reflexivity|]. simpl. lia.
  - reflexivity.
  - apply Hrun. lia.
Defined.

Lemma compile_response_has_its_cause_witness :
  ∃ tok error m r,
    submitted (Some "t0k") None = submitted (Some tok) error ∧ tok ≠ "" ∧
    finished (three_polls tok m) r ∧
    (∀ i, (i < m)%nat → in_progress (three_polls tok i)) ∧
    4000 = 2000 * Z.of_nat m ∧
    "MQo=" = output_of (λ x, x) r ∧ "Accepted" = status_description r ∧
    Some 3300 = memory r ∧ Some "0.01" = time r.
Proof.
  apply (compile_response_has_its_cause (λ x, x) 10 (submitted (Some "t0k") None)
           three_polls (ok "MQo=" "Accepted" (Some 3300) (Some "0.01")) 4000).
  reflexivity.
Defined.

Close Scope Z_scope.

End CompileProps.

(** * Properties of the room engine *)

Module CollabProps.
Import Collab.

(** Unfolding one handler run down to the world it returns. *)
Ltac run_handler :=
  unfold on_join, on_languageChange, on_codeChange, on_remark_add,
    on_disconnect, handleUserExit, on_close, on_connection,
    Room_findOne, Room_save, Remark_save, Room_findOneAndUpdate_pull,
    emit, socket_join, socket_leave, closure, assign,
    mbind, M_bind, mret, M_ret; simpl.

Lemma handle_listener env sid ev w s :
  sockets w !! sid = Some s → connected s = true →
  handle env sid ev w = listener env sid ev w.
Proof. intros Hs Hc. unfold handle. by rewrite Hs, Hc. Qed.

Lemma handle_gone env sid ev w s :
  sockets w !! sid = Some s → connected s = false →
  handle env sid ev w = (Returned (), w, []).
Proof. intros Hs Hc. unfold handle. by rewrite Hs, Hc. Qed.

Lemma may_edit_false s :
  currentRole s ≠ Some "Developer" → currentRole s ≠ Some "Admin" →
  may_edit s = false.
Proof.
  intros Hd Ha. unfold may_edit.
  by rewrite !bool_decide_eq_false_2.
Qed.

(** C1.  A socket whose role is neither "Developer" nor "Admin" (a "Tester"
    in particular) that sends [codeChange] or [languageChange] changes nothing
    in the world (so neither the code nor the language of any room) and
    nothing is emitted; the handler returns normally. *)
Theorem edit_denied_is_silent env sid w s rid c lang :
  sockets w !! sid = Some s →
  currentRole s ≠ Some "Developer" → currentRole s ≠ Some "Admin" →
  handle env sid (codeChange rid c) w = (Returned (), w, []) ∧
  handle env sid (languageChange rid lang) w = (Returned (), w, []).
Proof.
  intros Hs Hd Ha.
  destruct (connected s) eqn:Hc.
  - rewrite !(handle_listener _ _ _ _ s) by done. simpl.
    run_handler. rewrite Hs. simpl. by rewrite may_edit_false.
  - by rewrite !(handle_gone _ _ _ _ s).
Qed.

Lemma edit_denied_is_silent_witness :
  handle (up 9) "B" (codeChange "R1" "x") world_with_tester
    = (Returned (), world_with_tester, []) ∧
  handle (up 9) "B" (languageChange "R1" "python") world_with_tester
    = (Returned (), world_with_tester, []).
Proof.
  apply (edit_denied_is_silent (up 9) "B" world_with_tester
           (mkSocket true (Some "R1") (Some "bob") (Some "Tester")) "R1" "x" "python").
  - vm_compute. reflexivity.
  - simpl. discriminate.
  - simpl. discriminate.
Defined.

(** The scenario of the specification: who is sent what. *)
Example scenario_deliveries :
  map (λ d, (target d, message d, elements (receivers d))) (run scenario boot).2
  = [ (io_to "R1", userJoined ["alice"], ["A"]);
      (socket_emit "A", codeUpdate "", ["A"]);
      (socket_emit "A", languageUpdate "javascript", ["A"]);
      (io_to "R1", userJoined ["alice"; "bob"], ["A"; "B"]);
      (socket_emit "B", codeUpdate "", ["B"]);
      (socket_emit "B", languageUpdate "javascript", ["B"]);
      (socket_to "A" "R1", codeUpdate "print(1)", ["B"]);
      (io_to "R1",
       remark_update (mkRemark "R1" (Some "bob") (Some "Tester") "check this" 1 6 false),
       ["A"; "B"]);
      (io_to "R1", userJoined ["bob"], ["B"]) ].
Proof. vm_compute. reflexivity. Qed.

(** ** Socket.IO rooms *)

Lemma elem_of_in_room ad room sid : sid ∈ in_room ad room ↔ (sid, room) ∈ ad.
Proof.
  unfold in_room. rewrite elem_of_map. split.
  - intros [[x r] [-> Hin]]. apply elem_of_filter in Hin as [Hr Hin].
    simpl in *. by subst.
  - intros Hin. exists (sid, room). split; [done|].
    by apply elem_of_filter.
Qed.

Lemma in_room_join ad sid room :
  in_room ({[(sid, room)]} ∪ ad) room = {[sid]} ∪ in_room ad room.
Proof.
  apply set_eq. intros x.
  rewrite elem_of_union, !elem_of_in_room, elem_of_union, !elem_of_singleton.
  split; (intros [H|H]; [left|right]); congruence.
Qed.

(** ** join *)

(** C2.  A connected socket joins a [roomId] that has no Room, and the store
    answers: the Room is created with [users = [userName]], code [""] and
    language ["javascript"]; [userJoined [userName]] goes to the whole
    Socket.IO room (the joiner is in it), then [codeUpdate ""] and
    [languageUpdate "javascript"] go to the joining socket alone. *)
Theorem join_creates_room env sid w s rid user ro :
  sockets w !! sid = Some s → connected s = true → store_up env →
  rooms w !! rid = None →
  let created := mkRoom [user] "" "javascript" in
  let w' := mkWorld (<[rid := created]> (rooms w)) (remarks w)
              (<[sid := mkSocket true (Some rid) (Some user) (Some ro)]> (sockets w))
              ({[(sid, rid)]} ∪ adapter w) in
  handle env sid (join rid user ro) w =
    (Returned (), w',
     [ mkDelivery (io_to rid) (userJoined [user]) ({[sid]} ∪ in_room (adapter w) rid);
       mkDelivery (socket_emit sid) (codeUpdate "") {[sid]};
       mkDelivery (socket_emit sid) (languageUpdate "javascript") {[sid]} ])
  ∧ rooms w' !! rid = Some created.
Proof.
  intros Hs Hc [Hf Hw] Hr. simpl. split; [|by rewrite lookup_insert_eq].
  rewrite (handle_listener _ _ _ _ s) by done. simpl.
  run_handler. rewrite Hf, Hw, Hr, Hs. simpl. rewrite Hc.
  by rewrite in_room_join.
Qed.

Lemma join_creates_room_witness :
  (handle (up 2) "A" (join "R1" "alice" "Admin") world_with_socket).2
  = [ mkDelivery (io_to "R1") (userJoined ["alice"])
        ({["A"]} ∪ in_room (adapter world_with_socket) "R1");
      mkDelivery (socket_emit "A") (codeUpdate "") {["A"]};
      mkDelivery (socket_emit "A") (languageUpdate "javascript") {["A"]} ].
Proof.
  destruct (join_creates_room (up 2) "A" world_with_socket fresh "R1" "alice" "Admin")
    as [Hrun _].
  - vm_compute. reflexivity.
  - reflexivity.
  - split; reflexivity.
  - vm_compute. reflexivity.
  - by rewrite Hrun.
Defined.

(** ** codeChange and languageChange *)

(** C7.  [codeChange] or [languageChange] for a [roomId] that has no Room
    (from any socket, so from one with an editing role): the world is left
    as it was, no Room is created and nothing is emitted.  The handler
    returns normally when the query answers. *)
Theorem edit_absent_room_is_noop env sid w s rid c lang :
  sockets w !! sid = Some s → rooms w !! rid = None →
  ∃ done1 done2,
    handle env sid (codeChange rid c) w = (done1, w, []) ∧
    handle env sid (languageChange rid lang) w = (done2, w, []) ∧
    (find_ok env = true → done1 = Returned () ∧ done2 = Returned ()).
Proof.
  intros Hs Hr.
  destruct (connected s) eqn:Hc.
  - rewrite !(handle_listener _ _ _ _ s) by done. simpl.
    run_handler. rewrite Hs. simpl.
    destruct (may_edit s); [|by exists (Returned ()), (Returned ())].
    destruct (find_ok env); simpl.
    + rewrite Hr. by exists (Returned ()), (Returned ()).
    + by exists Rejected, Rejected.
  - rewrite !(handle_gone _ _ _ _ s) by done.
    by exists (Returned ()), (Returned ()).
Qed.

Lemma edit_absent_room_is_noop_witness :
  ∃ done1 done2,
    handle (up 9) "A" (codeChange "R9" "x") world_with_admin
      = (done1, world_with_admin, []) ∧
    handle (up 9) "A" (languageChange "R9" "python") world_with_admin
      = (done2, world_with_admin, []) ∧
    (find_ok (up 9) = true → done1 = Returned () ∧ done2 = Returned ()).
Proof.
  apply (edit_absent_room_is_noop (up 9) "A" world_with_admin
           (mkSocket true (Some "R1") (Some "alice") (Some "Admin"))).
  - vm_compute. reflexivity.
  - vm_compute. reflexivity.
Defined.

(** ** The room of the payload *)

Lemma relocate_lookup sid cr w s :
  sockets w !! sid = Some s →
  sockets (relocate sid cr w) !! sid
  = Some (mkSocket (connected s) cr (currentUser s) (currentRole s)).
Proof. intros Hs. unfold relocate. rewrite Hs. simpl. by rewrite lookup_insert_eq. Qed.

Lemma currentRoom_not_consulted env sid ev w cr :
  names_its_room ev = true →
  handle env sid ev (relocate sid cr w)
  = let '(done, w', out) := handle env sid ev w in (done, relocate sid cr w', out).
Proof.
  intros Hev. destruct (sockets w !! sid) as [s|] eqn:Hs.
  2:{ unfold relocate. rewrite Hs. unfold handle. rewrite Hs.
      destruct ev; simpl in Hev; try discriminate Hev;
        unfold relocate; by rewrite Hs. }
  pose proof (relocate_lookup sid cr w s Hs) as Hs'.
  destruct (connected s) eqn:Hc.
  2:{ rewrite (handle_gone _ _ _ _ _ Hs') by done.
      by rewrite (handle_gone _ _ _ _ _ Hs) by done. }
  rewrite (handle_listener _ _ _ _ _ Hs') by done.
  rewrite (handle_listener _ _ _ _ _ Hs) by done.
  assert (Hrel : ∀ rs rk,
    mkWorld rs rk (sockets (relocate sid cr w)) (adapter (relocate sid cr w))
    = relocate sid cr (mkWorld rs rk (sockets w) (adapter w))).
  { intros. unfold relocate. simpl. by rewrite Hs. }
  assert (Hrooms : rooms (relocate sid cr w) = rooms w)
    by (unfold relocate; by rewrite Hs).
  assert (Hrks : remarks (relocate sid cr w) = remarks w)
    by (unfold relocate; by rewrite Hs).
  assert (Had : adapter (relocate sid cr w) = adapter w)
    by (unfold relocate; by rewrite Hs).
  assert (Hedit : may_edit (mkSocket true cr (currentUser s) (currentRole s)) = may_edit s)
    by done.
  destruct ev; simpl in Hev; try discriminate Hev;
    simpl; run_handler; rewrite Hs', Hs; simpl.
  - rewrite Hedit. destruct (may_edit s); [|done].
    destruct (find_ok env); [|done]. simpl. rewrite Hrooms.
    destruct (rooms w !! rid); [|done].
    destruct (write_ok env); [|done]. simpl.
    by rewrite ?Hrooms, Hrks, Hrel, Had.
  - rewrite Hedit. destruct (may_edit s); [|done].
    destruct (find_ok env); [|done]. simpl. rewrite Hrooms.
    destruct (rooms w !! rid); [|done].
    destruct (write_ok env); [|done]. simpl.
    by rewrite ?Hrooms, Hrks, Hrel, Had.
  - case_bool_decide; [|done].
    destruct (write_ok env); [|done]. simpl.
    by rewrite Hrooms, Hrks, Hrel, Had.
Qed.

(** C10 as the code has it.  [codeChange], [languageChange] and [remark:add]
    act on the room named by the payload.  For a connected socket with the
    role the event asks for, the store answering: [codeChange] and
    [languageChange] write the field of the Room of the payload and emit to
    the others in the Socket.IO room of the payload, and do nothing when
    that Room does not exist; [remark:add] stores the Remark under the
    [roomId] of the payload and emits it to that Socket.IO room whether or
    not a Room of that id exists.  [currentRoom] is not consulted: with any
    other value in it the handler returns, stores and emits the same. *)
Theorem events_target_payload_room env sid w s rid c lang txt ln :
  sockets w !! sid = Some s → connected s = true → store_up env →
  (may_edit s = true →
     handle env sid (codeChange rid c) w
     = match rooms w !! rid with
       | Some room =>
           (Returned (),
            mkWorld (<[rid := mkRoom (users room) c (language room)]> (rooms w))
                    (remarks w) (sockets w) (adapter w),
            [mkDelivery (socket_to sid rid) (codeUpdate c)
               (in_room (adapter w) rid ∖ {[sid]})])
       | None => (Returned (), w, [])
       end
     ∧
     handle env sid (languageChange rid lang) w
     = match rooms w !! rid with
       | Some room =>
           (Returned (),
            mkWorld (<[rid := mkRoom (users room) (code room) lang]> (rooms w))
                    (remarks w) (sockets w) (adapter w),
            [mkDelivery (socket_to sid rid) (languageUpdate lang)
               (in_room (adapter w) rid ∖ {[sid]})])
       | None => (Returned (), w, [])
       end)
  ∧ (currentRole s = Some "Tester" →
     let remark := mkRemark rid (currentUser s) (Some "Tester") txt ln (now env) false in
     handle env sid (remark_add rid txt ln) w
     = (Returned (),
        mkWorld (rooms w) (remarks w ++ [remark]) (sockets w) (adapter w),
        [mkDelivery (io_to rid) (remark_update remark) (in_room (adapter w) rid)]))
  ∧ (∀ ev cr, names_its_room ev = true →
     handle env sid ev (relocate sid cr w)
     = let '(done, w', out) := handle env sid ev w in (done, relocate sid cr w', out)).
Proof.
  intros Hs Hc [Hf Hw]. split; [|split].
  - intros He. rewrite !(handle_listener _ _ _ _ s) by done. simpl.
    run_handler. rewrite Hs. simpl. rewrite He, Hf. simpl.
    destruct (rooms w !! rid); [|done]. by rewrite Hw.
  - intros Hr. rewrite (handle_listener _ _ _ _ s) by done. simpl.
    run_handler. rewrite Hs. simpl. by rewrite Hr, Hw.
  - intros ev cr Hev. by apply currentRoom_not_consulted.
Qed.

Lemma events_target_payload_room_witness :
  (handle (up 9) "A" (codeChange "R7" "x") world_with_admin).2 = [] ∧
  handle (up 9) "A" (codeChange "R1" "x") (relocate "A" (Some "R7") world_with_admin)
  = let '(done, w', out) := handle (up 9) "A" (codeChange "R1" "x") world_with_admin in
    (done, relocate "A" (Some "R7") w', out).
Proof.
  destruct (events_target_payload_room (up 9) "A" world_with_admin
              (mkSocket true (Some "R1") (Some "alice") (Some "Admin"))
              "R7" "x" "python" "note" 1) as (Hedit & _ & Hfree).
  - vm_compute. reflexivity.
  - reflexivity.
  - split; reflexivity.
  - split.
    + destruct (Hedit eq_refl) as [Hcode _]. rewrite Hcode.
      vm_compute. reflexivity.
    + by apply (Hfree (codeChange "R1" "x") (Some "R7")).
Defined.

(** C10 as stated does not hold: a Tester joined to "R1" sends [remark:add]
    for "R2", which has no Room; a Remark is stored all the same. *)
Lemma remark_add_absent_room_not_noop :
  sockets world_with_tester !! "B"
    = Some (mkSocket true (Some "R1") (Some "bob") (Some "Tester")) ∧
  rooms world_with_tester !! "R2" = None ∧
  remarks world_with_tester = [] ∧
  remarks (handle (up 9) "B" (remark_add "R2" "note" 1) world_with_tester).1.2
  = [mkRemark "R2" (Some "bob") (Some "Tester") "note" 1 9 false].
Proof. vm_compute. done. Qed.

(** ** What one event does to the Room collection *)

Lemma handle_rooms env sid ev w :
  rooms (handle env sid ev w).1.2 = rooms w ∨
  ∃ rid new,
    rooms (handle env sid ev w).1.2 = <[rid := new]> (rooms w) ∧
    RoomWrite rid ev (rooms w !! rid) new.
Proof.
  unfold handle.
  destruct (sockets w !! sid) as [s|] eqn:Hs; [|destruct ev; by left].
  destruct (connected s) eqn:Hc; [|by left].
  destruct ev; simpl; run_handler; rewrite ?Hs; simpl; try by left.
  - (* join *)
    destruct (find_ok env); [|by left]. simpl.
    destruct (write_ok env); [|by left]. simpl.
    destruct (rooms w !! rid) as [old|] eqn:Hr.
    + case_bool_decide as Hin.
      * left. by apply insert_id.
      * right. eexists _, _. split; [done|]. rewrite Hr. by constructor.
    + right. eexists _, _. split; [done|]. rewrite Hr. by constructor.
  - (* languageChange *)
    destruct (may_edit s); [|by left].
    destruct (find_ok env); [|by left]. simpl.
    destruct (rooms w !! rid) as [old|] eqn:Hr; [|by left].
    destruct (write_ok env); [|by left]. simpl.
    right. eexists _, _. split; [done|]. rewrite Hr. by constructor.
  - (* codeChange *)
    destruct (may_edit s); [|by left].
    destruct (find_ok env); [|by left]. simpl.
    destruct (rooms w !! rid) as [old|] eqn:Hr; [|by left].
    destruct (write_ok env); [|by left]. simpl.
    right. eexists _, _. split; [done|]. rewrite Hr. by constructor.
  - (* remark:add *)
    case_bool_decide; [|by left].
    destruct (write_ok env); by left.
  - (* leaveRoom *)
    destruct (truthy (currentRoom s)) as [room|]; [|by left].
    destruct (truthy (currentUser s)) as [user|]; [|by left].
    destruct (write_ok env); [|by left].
    destruct (rooms w !! room) as [old|] eqn:Hr; [|by left]. simpl.
    right. eexists _, _. split; [done|]. rewrite Hr. constructor. by left.
  - (* disconnect *)
    rewrite lookup_insert_eq. simpl.
    destruct (truthy (currentRoom s)) as [room|]; [|by left].
    destruct (truthy (currentUser s)) as [user|]; [|by left].
    destruct (write_ok env); [|by left]. simpl.
    destruct (rooms w !! room) as [old|] eqn:Hr; [|by left]. simpl.
    right. eexists _, _. split; [done|]. rewrite Hr. constructor. by right.
Qed.

(** ** Sockets are in the Socket.IO room they joined *)

Lemma in_adapter_leave (ad : gset (string * string)) sid sid' room room' :
  sid' ≠ sid → (sid', room') ∈ ad → (sid', room') ∈ ad ∖ {[(sid, room)]}.
Proof. intros Hne Hin. apply elem_of_difference. split; [done|]. set_solver. Qed.

Lemma in_adapter_close (ad : gset (string * string)) sid sid' room' :
  sid' ≠ sid → (sid', room') ∈ ad →
  (sid', room') ∈ filter (λ p : string * string, p.1 ≠ sid) ad.
Proof. intros Hne Hin. by apply elem_of_filter. Qed.

Ltac solve_tracks Hw sid :=
  let sid' := fresh "sid'" in
  let s' := fresh "s'" in
  let room' := fresh "room'" in
  let Hs' := fresh "Hs'" in
  let Hc' := fresh "Hc'" in
  let Hr' := fresh "Hr'" in
  intros sid' s' room' Hs' Hc' Hr'; simpl in *;
  destruct (decide (sid' = sid)) as [->|?];
  [ repeat (rewrite lookup_insert_eq in Hs'); simplify_eq; simpl in *;
    simplify_eq; try done; try (apply elem_of_union_l, elem_of_singleton; reflexivity);
    try (eapply Hw; eassumption)
  | repeat (rewrite lookup_insert_ne in Hs' by done);
    try (apply in_adapter_leave; [done|]);
    try (apply in_adapter_close; [done|]);
    try (apply in_adapter_leave; [done|]);
    try (apply elem_of_union_r);
    eapply Hw; eassumption ].

Lemma handle_keeps_tracking env sid ev w :
  tracks w → tracks (handle env sid ev w).1.2.
Proof.
  intros Hw. unfold handle.
  destruct (sockets w !! sid) as [s|] eqn:Hs.
  2:{ destruct ev; try done. simpl. solve_tracks Hw sid. }
  destruct (connected s) eqn:Hc; [|done].
  destruct ev; simpl; run_handler; rewrite ?Hs; simpl; try done.
  - (* join *)
    destruct (find_ok env); simpl; [|solve_tracks Hw sid].
    destruct (write_ok env); simpl; solve_tracks Hw sid.
  - (* languageChange *)
    destruct (may_edit s); [|done].
    destruct (find_ok env); [|done]. simpl.
    destruct (rooms w !! rid); [|done].
    destruct (write_ok env); [|done]. simpl. solve_tracks Hw sid.
  - (* codeChange *)
    destruct (may_edit s); [|done].
    destruct (find_ok env); [|done]. simpl.
    destruct (rooms w !! rid); [|done].
    destruct (write_ok env); [|done]. simpl. solve_tracks Hw sid.
  - (* remark:add *)
    case_bool_decide; [|done].
    destruct (write_ok env); [|done]. simpl. solve_tracks Hw sid.
  - (* leaveRoom *)
    destruct (truthy (currentRoom s)) as [room|]; [|done].
    destruct (truthy (currentUser s)) as [user|]; [|done].
    destruct (write_ok env); [|done].
    destruct (rooms w !! room); simpl; solve_tracks Hw sid.
  - (* disconnect *)
    rewrite lookup_insert_eq. simpl.
    destruct (truthy (currentRoom s)) as [room|]; [|solve_tracks Hw sid].
    destruct (truthy (currentUser s)) as [user|]; [|solve_tracks Hw sid].
    destruct (write_ok env); simpl; [|solve_tracks Hw sid].
    destruct (rooms w !! room); simpl; rewrite ?lookup_insert_eq; simpl;
      solve_tracks Hw sid.
Qed.

Lemma world_after_cons env sid ev tr w :
  world_after ((env, sid, ev) :: tr) w
  = world_after tr (handle env sid ev w).1.2.
Proof.
  unfold world_after. simpl.
  destruct (handle env sid ev w) as [[done w1] out1]. simpl.
  by destruct (run tr w1).
Qed.

(** ** Rooms are never deleted *)

Lemma handle_keeps_room env sid ev w rid :
  is_Some (rooms w !! rid) → is_Some (rooms (handle env sid ev w).1.2 !! rid).
Proof.
  intros Hr. destruct (handle_rooms env sid ev w) as [-> | (r & new & -> & _)]; [done|].
  destruct (decide (r = rid)) as [->|Hne].
  - rewrite lookup_insert_eq. by eexists.
  - by rewrite lookup_insert_ne.
Qed.

Lemma run_keeps_room tr : ∀ w rid,
  is_Some (rooms w !! rid) → is_Some (rooms (world_after tr w) !! rid).
Proof.
  induction tr as [|[[env sid] ev] tr IH]; intros w rid Hr; [done|].
  rewrite world_after_cons. by apply IH, handle_keeps_room.
Qed.

Lemma run_keeps_tracking tr : ∀ w, tracks w → tracks (world_after tr w).
Proof.
  induction tr as [|[[env sid] ev] tr IH]; intros w Hw; [done|].
  rewrite world_after_cons. by apply IH, handle_keeps_tracking.
Qed.

Lemma reachable_tracks w : reachable w → tracks w.
Proof.
  intros [tr ->]. apply run_keeps_tracking.
  intros sid s room Hs. simpl in Hs. by simplify_map_eq.
Qed.

(** ** remark:add *)

(** C4.  [remark:add] from a connected socket, the store answering: a Remark
    is created and stored if and only if the role of the socket is "Tester".
    The Remark carries the socket's userName and role, the text and line of
    the event, the time of creation and [resolved = false]; it is emitted as
    [remark:update] to every socket of the Socket.IO room of the payload, the
    sender not excepted: the author receives it whenever it is in that room,
    as it is, in every world the server can reach, when the payload names
    the room the author joined.  With any other role the world is unchanged
    and nothing is emitted. *)
Theorem remark_add_tester_only env sid w s rid txt ln :
  sockets w !! sid = Some s → connected s = true → write_ok env = true →
  let remark := mkRemark rid (currentUser s) (Some "Tester") txt ln (now env) false in
  let after := handle env sid (remark_add rid txt ln) w in
  (currentRole s = Some "Tester" →
     after = (Returned (),
              mkWorld (rooms w) (remarks w ++ [remark]) (sockets w) (adapter w),
              [mkDelivery (io_to rid) (remark_update remark) (in_room (adapter w) rid)])
     ∧ ((sid, rid) ∈ adapter w → sid ∈ in_room (adapter w) rid)
     ∧ (reachable w → currentRoom s = Some rid → sid ∈ in_room (adapter w) rid))
  ∧ (currentRole s ≠ Some "Tester" → after = (Returned (), w, []))
  ∧ (remarks after.1.2 ≠ remarks w ↔ currentRole s = Some "Tester").
Proof.
  intros Hs Hc Hw remark after.
  assert (Hyes : currentRole s = Some "Tester" →
     after = (Returned (),
              mkWorld (rooms w) (remarks w ++ [remark]) (sockets w) (adapter w),
              [mkDelivery (io_to rid) (remark_update remark) (in_room (adapter w) rid)])).
  { intros Hr. unfold after. rewrite (handle_listener _ _ _ _ s) by done. simpl.
    run_handler. rewrite Hs. simpl. rewrite Hr, Hw. reflexivity. }
  assert (Hno : currentRole s ≠ Some "Tester" → after = (Returned (), w, [])).
  { intros Hr. unfold after. rewrite (handle_listener _ _ _ _ s) by done. simpl.
    run_handler. rewrite Hs. simpl.
    by rewrite bool_decide_eq_false_2. }
  split; [|split]; [| done |].
  - intros Hr. split; [by apply Hyes|]. split.
    + intros Hin. by apply elem_of_in_room.
    + intros Hreach Hroom. apply elem_of_in_room.
      by apply (reachable_tracks w Hreach sid s rid).
  - split.
    + intros Hne. destruct (decide (currentRole s = Some "Tester")) as [|Hr]; [done|].
      rewrite (Hno Hr) in Hne. done.
    + intros Hr. rewrite (Hyes Hr). simpl. intros Heq.
      apply (f_equal length) in Heq. rewrite length_app in Heq. simpl in Heq. lia.
Qed.

Lemma remark_add_tester_only_witness :
  "B" ∈ in_room (adapter world_with_tester) "R1" ∧
  (handle (up 6) "B" (remark_add "R1" "check this" 1) world_with_tester).2
  = [mkDelivery (io_to "R1")
       (remark_update (mkRemark "R1" (Some "bob") (Some "Tester") "check this" 1 6 false))
       (in_room (adapter world_with_tester) "R1")].
Proof.
  destruct (remark_add_tester_only (up 6) "B" world_with_tester
              (mkSocket true (Some "R1") (Some "bob") (Some "Tester"))
              "R1" "check this" 1) as [Hyes _].
  - vm_compute. reflexivity.
  - reflexivity.
  - reflexivity.
  - destruct (Hyes eq_refl) as (Hrun & _ & Hin). split.
    + apply Hin; [|reflexivity]. by exists (take 4 scenario).
    + by rewrite Hrun.
Defined.

(** ** Code and language stay unless edited *)

Lemma handle_keeps_document env sid ev w rid room :
  edits rid ev = false → rooms w !! rid = Some room →
  ∃ room', rooms (handle env sid ev w).1.2 !! rid = Some room' ∧
           code room' = code room ∧ language room' = language room.
Proof.
  intros Hev Hr.
  destruct (handle_rooms env sid ev w) as [-> | (r & new & -> & Hw)]; [by eexists|].
  destruct (decide (r = rid)) as [->|Hne].
  2:{ rewrite lookup_insert_ne by done. by eexists. }
  rewrite lookup_insert_eq. eexists. split; [done|].
  rewrite Hr in Hw. inversion Hw; subst; simpl in *; try done.
  - by rewrite bool_decide_eq_true_2 in Hev.
  - by rewrite bool_decide_eq_true_2 in Hev.
Qed.

Lemma run_keeps_document tr : ∀ w rid room,
  Forall (λ i : Input, edits rid i.2 = false) tr →
  rooms w !! rid = Some room →
  ∃ room', rooms (world_after tr w) !! rid = Some room' ∧
           code room' = code room ∧ language room' = language room.
Proof.
  induction tr as [|[[env sid] ev] tr IH]; intros w rid room Htr Hr.
  - by exists room.
  - apply Forall_cons in Htr as [Hev Htr]. simpl in Hev.
    rewrite world_after_cons.
    destruct (handle_keeps_document env sid ev w rid room Hev Hr)
      as (room1 & Hr1 & Hc1 & Hl1).
    destruct (IH _ rid room1 Htr Hr1) as (room' & Hr' & Hc' & Hl').
    exists room'. split; [done|]. split; congruence.
Qed.

(** A join to a room that exists sends the stored code and language back. *)
Lemma join_hydrates env sid w s rid room user ro :
  sockets w !! sid = Some s → connected s = true → store_up env →
  rooms w !! rid = Some room →
  ∃ us w',
    handle env sid (join rid user ro) w =
      (Returned (), w',
       [ mkDelivery (io_to rid) (userJoined us) ({[sid]} ∪ in_room (adapter w) rid);
         mkDelivery (socket_emit sid) (codeUpdate (code room)) {[sid]};
         mkDelivery (socket_emit sid) (languageUpdate (language room)) {[sid]} ]).
Proof.
  intros Hs Hc [Hf Hw] Hr.
  rewrite (handle_listener _ _ _ _ s) by done. simpl.
  run_handler. rewrite Hf, Hw, Hr, Hs. simpl.
  rewrite in_room_join.
  case_bool_decide; by eexists _, _.
Qed.

(** An edit that goes through leaves its text in the stored Room. *)
Lemma edit_writes_document env sid w s rid room c lang :
  sockets w !! sid = Some s → connected s = true → may_edit s = true →
  store_up env → rooms w !! rid = Some room →
  rooms (handle env sid (codeChange rid c) w).1.2 !! rid
    = Some (mkRoom (users room) c (language room)) ∧
  rooms (handle env sid (languageChange rid lang) w).1.2 !! rid
    = Some (mkRoom (users room) (code room) lang).
Proof.
  intros Hs Hc He [Hf Hw] Hr.
  rewrite !(handle_listener _ _ _ _ s) by done. simpl.
  run_handler. rewrite Hs. simpl. rewrite He, Hf. simpl. rewrite Hr, Hw. simpl.
  by rewrite !lookup_insert_eq.
Qed.

(** C5.  A Room that exists still exists after any sequence of events.  A
    [codeChange] or [languageChange] that goes through leaves its text in
    the stored Room.  And after any sequence of events that does not write
    the code or language of that Room (leaving it or disconnecting, for one),
    a socket that joins it with the store answering is sent the code and the
    language the Room had before that sequence, that is, the ones last
    written, not the defaults. *)
Theorem rooms_persist_and_rehydrate tr w rid room env sid s user ro :
  rooms w !! rid = Some room →
  is_Some (rooms (world_after tr w) !! rid) ∧
  (∀ editor c lang,
     sockets w !! sid = Some editor → connected editor = true →
     may_edit editor = true → store_up env →
     rooms (handle env sid (codeChange rid c) w).1.2 !! rid
       = Some (mkRoom (users room) c (language room)) ∧
     rooms (handle env sid (languageChange rid lang) w).1.2 !! rid
       = Some (mkRoom (users room) (code room) lang)) ∧
  (Forall (λ i : Input, edits rid i.2 = false) tr →
   sockets (world_after tr w) !! sid = Some s → connected s = true →
   store_up env →
   ∃ us w',
     handle env sid (join rid user ro) (world_after tr w) =
       (Returned (), w',
        [ mkDelivery (io_to rid) (userJoined us)
            ({[sid]} ∪ in_room (adapter (world_after tr w)) rid);
          mkDelivery (socket_emit sid) (codeUpdate (code room)) {[sid]};
          mkDelivery (socket_emit sid) (languageUpdate (language room)) {[sid]} ])).
Proof.
  intros Hr. split; [by apply run_keeps_room|]. split.
  - intros editor c lang Hs Hc He Hup.
    by apply (edit_writes_document env sid w editor).
  - intros Htr Hs Hc Hup.
    destruct (run_keeps_document tr w rid room Htr Hr) as (room' & Hr' & <- & <-).
    by apply (join_hydrates env sid _ s rid room').
Qed.

Lemma rooms_persist_and_rehydrate_witness :
  rooms world_with_code !! "R1"
    = Some (mkRoom ["alice"; "bob"] "print(1)" "javascript") ∧
  ∃ us w',
    handle (up 9) "B" (join "R1" "bob" "Tester")
      (world_after [(up 8, "B", leaveRoom)] world_with_code) =
      (Returned (), w',
       [ mkDelivery (io_to "R1") (userJoined us)
           ({["B"]} ∪ in_room (adapter (world_after [(up 8, "B", leaveRoom)]
                                           world_with_code)) "R1");
         mkDelivery (socket_emit "B") (codeUpdate "print(1)") {["B"]};
         mkDelivery (socket_emit "B") (languageUpdate "javascript") {["B"]} ]).
Proof.
  assert (Hr : rooms world_with_code !! "R1"
               = Some (mkRoom ["alice"; "bob"] "print(1)" "javascript"))
    by (vm_compute; reflexivity).
  split; [done|].
  destruct (rooms_persist_and_rehydrate [(up 8, "B", leaveRoom)] world_with_code
              "R1" _ (up 9) "B" (mkSocket true None None None) "bob" "Tester" Hr)
    as (_ & _ & Hjoin).
  apply Hjoin.
  - by repeat constructor.
  - vm_compute. reflexivity.
  - reflexivity.
  - split; reflexivity.
Defined.

(** ** Membership *)

Lemma join_member_keeps_rooms env sid w rid user ro room :
  rooms w !! rid = Some room → user ∈ users room →
  rooms (handle env sid (join rid user ro) w).1.2 = rooms w.
Proof.
  intros Hr Hin.
  destruct (handle_rooms env sid (join rid user ro) w)
    as [-> | (r & new & _ & Hw)]; [done|].
  inversion Hw; subst.
  - congruence.
  - assert (old = room) by congruence. by subst.
  - match goal with H : _ ∨ _ |- _ => destruct H; discriminate end.
Qed.

Lemma pull_NoDup user us : NoDup us → NoDup (pull user us).
Proof. apply NoDup_filter. Qed.

Lemma handle_keeps_distinct env sid ev w :
  (∀ rid room, rooms w !! rid = Some room → NoDup (users room)) →
  ∀ rid room, rooms (handle env sid ev w).1.2 !! rid = Some room →
              NoDup (users room).
Proof.
  intros Hw rid room.
  destruct (handle_rooms env sid ev w) as [-> | (r & new & -> & Hnew)]; [by apply Hw|].
  destruct (decide (r = rid)) as [->|Hne].
  2:{ rewrite lookup_insert_ne by done. by apply Hw. }
  rewrite lookup_insert_eq. intros [= <-].
  destruct (rooms w !! rid) as [old|] eqn:Ho.
  - pose proof (Hw _ _ Ho) as Hnd.
    inversion Hnew; subst; simpl; try done.
    + apply NoDup_app. split; [done|]. split; [|apply NoDup_singleton].
      intros x Hx Hx'. apply list_elem_of_singleton in Hx'. by subst.
    + by apply pull_NoDup.
  - inversion Hnew; subst. apply NoDup_singleton.
Qed.

Lemma run_keeps_distinct tr : ∀ w,
  (∀ rid room, rooms w !! rid = Some room → NoDup (users room)) →
  ∀ rid room, rooms (world_after tr w) !! rid = Some room → NoDup (users room).
Proof.
  induction tr as [|[[env sid] ev] tr IH]; intros w Hw; [done|].
  rewrite world_after_cons. by apply IH, handle_keeps_distinct.
Qed.

(** C8.  A Room lists [userName] among its users.  After any sequence of
    joins to that Room under that [userName] (from any sockets, in any roles,
    whether the store answers or not) the Room collection is what it was, so
    the users list is unchanged and has no new entry. *)
Theorem join_is_idempotent tr w rid user room :
  rooms w !! rid = Some room → user ∈ users room →
  Forall (λ i : Input, ∃ ro, i.2 = join rid user ro) tr →
  rooms (world_after tr w) = rooms w ∧
  rooms (world_after tr w) !! rid = Some room.
Proof.
  intros Hr Hin Htr.
  assert (Hsame : rooms (world_after tr w) = rooms w).
  { revert w Hr. induction tr as [|[[env sid] ev] tr IH]; intros w Hr; [done|].
    apply Forall_cons in Htr as [[ro Hev] Htr]. simpl in Hev. subst ev.
    rewrite world_after_cons.
    pose proof (join_member_keeps_rooms env sid w rid user ro room Hr Hin) as Hstep.
    rewrite IH; [done|done|]. by rewrite Hstep. }
  split; [done|]. by rewrite Hsame.
Qed.

Lemma join_is_idempotent_witness :
  rooms (world_after [(up 8, "B", join "R1" "bob" "Tester");
                      (up 9, "A", join "R1" "bob" "Developer")] world_with_tester)
  !! "R1" = Some (mkRoom ["alice"; "bob"] "" "javascript").
Proof.
  apply (join_is_idempotent _ world_with_tester "R1" "bob").
  - vm_compute. reflexivity.
  - simpl. apply list_elem_of_In. simpl. tauto.
  - repeat constructor; by eexists.
Defined.

(** X11.  As long as handlers do not overlap (each one finishes before the
    next event is handled, which is what [world_after] runs), no Room lists
    a userName twice: [join] pushes a name only when [includes] does not
    find it, and [$pull] only removes.  Nothing in the source orders two
    joins, so this is a statement about that schedule only: the test and
    the push of [join] are separated from the query by an [await]. *)
Corollary users_distinct_from_boot tr rid room :
  rooms (world_after tr boot) !! rid = Some room → NoDup (users room).
Proof. apply run_keeps_distinct. intros r x Hx. simpl in Hx. by simplify_map_eq. Qed.

Lemma users_distinct_from_boot_witness : NoDup ["alice"; "bob"].
Proof.
  apply (users_distinct_from_boot (take 4 scenario) "R1"
           (mkRoom ["alice"; "bob"] "" "javascript")).
  vm_compute. reflexivity.
Defined.

(** ** A store call that fails *)

(** C6 as the code has it.  When the write of a mutating event ([join],
    [codeChange], [languageChange], [remark:add]) fails, nothing is emitted
    (the emit statements come after the awaited save), the Room and Remark
    collections are as before, and the handler ends rejected where it had
    reached its save.  Nothing reaches any socket, the sender included. *)
Theorem failed_write_sends_nothing env sid s ev w :
  sockets w !! sid = Some s → connected s = true →
  mutating ev = true → write_ok env = false →
  ∃ done w',
    handle env sid ev w = (done, w', []) ∧
    rooms w' = rooms w ∧ remarks w' = remarks w ∧
    (reaches_save env s w ev = true → done = Rejected) ∧
    (∀ to, ¬ reaches to (handle env sid ev w).2).
Proof.
  intros Hs Hc Hev Hw.
  assert (Hmain : ∃ done w',
    handle env sid ev w = (done, w', []) ∧
    rooms w' = rooms w ∧ remarks w' = remarks w ∧
    (reaches_save env s w ev = true → done = Rejected)).
  { rewrite (handle_listener _ _ _ _ s) by done.
    destruct ev; simpl in Hev; try discriminate Hev;
      simpl; run_handler; rewrite Hs, ?Hw; simpl.
    - destruct (find_ok env); simpl; rewrite ?Hw; by eexists _, _.
    - destruct (may_edit s); simpl; [|by eexists _, _].
      destruct (find_ok env); simpl; [|by eexists _, _].
      destruct (rooms w !! rid) eqn:Hr; simpl; rewrite ?Hw.
      + by eexists _, _.
      + by eexists _, _.
    - destruct (may_edit s); simpl; [|by eexists _, _].
      destruct (find_ok env); simpl; [|by eexists _, _].
      destruct (rooms w !! rid) eqn:Hr; simpl; rewrite ?Hw.
      + by eexists _, _.
      + by eexists _, _.
    - case_bool_decide; simpl; rewrite ?Hw; by eexists _, _. }
  destruct Hmain as (done & w' & Hrun & Hrooms & Hrks & Hrej).
  exists done, w'. repeat split; try done.
  intros to (d & Hd & _). rewrite Hrun in Hd. simpl in Hd.
  by apply elem_of_nil in Hd.
Qed.

Lemma failed_write_sends_nothing_witness :
  ∃ w', handle (store_down 9) "A" (codeChange "R1" "x") world_with_admin
        = (Rejected, w', []) ∧ rooms w' = rooms world_with_admin.
Proof.
  destruct (failed_write_sends_nothing (store_down 9) "A"
              (mkSocket true (Some "R1") (Some "alice") (Some "Admin"))
              (codeChange "R1" "x") world_with_admin)
    as (done & w' & Hrun & Hrooms & _ & Hrej & _).
  - vm_compute. reflexivity.
  - reflexivity.
  - reflexivity.
  - reflexivity.
  - exists w'. rewrite Hrun. split; [|done].
    rewrite Hrej; [done|]. vm_compute. reflexivity.
Defined.

(** C6 as stated does not hold: an Admin's [codeChange] whose save fails is
    rejected, and no emission reaches the sender. *)
Lemma failed_write_not_reported :
  sockets world_with_admin !! "A"
    = Some (mkSocket true (Some "R1") (Some "alice") (Some "Admin")) ∧
  (handle (store_down 9) "A" (codeChange "R1" "x") world_with_admin).1.1 = Rejected ∧
  ¬ reaches "A" (handle (store_down 9) "A" (codeChange "R1" "x") world_with_admin).2.
Proof.
  split; [by vm_compute|]. split; [by vm_compute|].
  intros (d & Hd & _). vm_compute in Hd. by apply elem_of_nil in Hd.
Qed.

(** ** leaveRoom and disconnect *)

(** [$pull] is set difference on the stored list. *)
Lemma elem_of_pull user us u : u ∈ pull user us ↔ u ∈ us ∧ u ≠ user.
Proof. unfold pull. rewrite list_elem_of_filter. tauto. Qed.

(** handleUserExit when its guard holds: both closure variables are set and
    not empty.  With the store answering, the userName is pulled from the
    users of the joined Room, the new list is emitted to the Socket.IO room
    when the Room exists, the socket leaves the Socket.IO room and the three
    closure variables are cleared. *)
Lemma exit_removes_user env sid w s room user :
  sockets w !! sid = Some s → connected s = true → write_ok env = true →
  truthy (currentRoom s) = Some room → truthy (currentUser s) = Some user →
  handle env sid leaveRoom w
  = match rooms w !! room with
    | Some old =>
        (Returned (),
         mkWorld (<[room := mkRoom (pull user (users old)) (code old) (language old)]>
                    (rooms w))
                 (remarks w)
                 (<[sid := mkSocket true None None None]> (sockets w))
                 (adapter w ∖ {[(sid, room)]}),
         [mkDelivery (io_to room) (userJoined (pull user (users old)))
            (in_room (adapter w) room)])
    | None =>
        (Returned (),
         mkWorld (rooms w) (remarks w)
                 (<[sid := mkSocket true None None None]> (sockets w))
                 (adapter w ∖ {[(sid, room)]}),
         [])
    end.
Proof.
  intros Hs Hc Hw Hroom Huser.
  rewrite (handle_listener _ _ _ _ s) by done. simpl.
  run_handler. rewrite Hs. simpl. rewrite Hroom, Huser, Hw.
  destruct (rooms w !! room); simpl; rewrite Hs; simpl; by rewrite Hc.
Qed.


(** A socket whose closure variables are [null] (it never joined, or it has
    left): [leaveRoom] does nothing at all, and [disconnect] only closes the
    socket; no document is touched and nothing is emitted. *)
Lemma exit_unjoined_is_noop env sid w s :
  sockets w !! sid = Some s → connected s = true →
  currentRoom s = None → currentUser s = None →
  handle env sid leaveRoom w = (Returned (), w, []) ∧
  ∃ w', handle env sid disconnect w = (Returned (), w', []) ∧
        rooms w' = rooms w ∧ remarks w' = remarks w.
Proof.
  intros Hs Hc Hroom Huser. split.
  - rewrite (handle_listener _ _ _ _ s) by done. simpl.
    run_handler. rewrite Hs. simpl. by rewrite Hroom.
  - rewrite (handle_listener _ _ _ _ s) by done. simpl.
    run_handler. rewrite Hs. simpl. rewrite lookup_insert_eq. simpl.
    rewrite Hroom. by eexists.
Qed.




(** * Further properties of the room engine *)

(** Case analysis of one event down to the worlds it can leave. *)
Ltac handle_cases env sid ev w s Hs Hc :=
  unfold handle;
  destruct (sockets w !! sid) as [s|] eqn:Hs;
  [ destruct (connected s) eqn:Hc;
    [ destruct ev; simpl; run_handler; rewrite ?Hs; simpl;
      rewrite ?lookup_insert_eq; simpl;
      repeat match goal with
      | |- context [find_ok env] => destruct (find_ok env) eqn:?; simpl
      | |- context [write_ok env] => destruct (write_ok env) eqn:?; simpl
      | |- context [may_edit s] => destruct (may_edit s) eqn:?; simpl
      | |- context [truthy (currentRoom s)] =>
          destruct (truthy (currentRoom s)) eqn:?; simpl
      | |- context [truthy (currentUser s)] =>
          destruct (truthy (currentUser s)) eqn:?; simpl
      | |- context [bool_decide (currentRole s = Some "Tester")] =>
          destruct (bool_decide (currentRole s = Some "Tester")) eqn:?; simpl
      | |- context [rooms w !! ?r] => destruct (rooms w !! r) eqn:?; simpl
      | |- context [bool_decide (?u ∈ users ?r)] =>
          destruct (bool_decide (u ∈ users r)) eqn:?; simpl
      end;
      rewrite ?lookup_insert_eq; simpl; rewrite ?Hs; simpl; rewrite ?Hc
    | simpl ]
  | destruct ev; simpl ].

(** ** Remarks *)

Lemma handle_remarks env sid ev w :
  remarks (handle env sid ev w).1.2 = remarks w ∨
  ∃ rid txt ln s,
    ev = remark_add rid txt ln ∧ sockets w !! sid = Some s ∧
    currentRole s = Some "Tester" ∧
    remarks (handle env sid ev w).1.2
    = remarks w ++ [mkRemark rid (currentUser s) (Some "Tester") txt ln (now env) false].
Proof.
  handle_cases env sid ev w s Hs Hc; try by left.
  right. match goal with H : bool_decide _ = true |- _ =>
    apply bool_decide_eq_true in H; rewrite H end.
  by eexists _, _, _, _.
Qed.

(** X7.  The Remark collection only grows, and at its end: after any
    sequence of events the Remarks stored before are still there, unchanged
    and in the same order, before the new ones. *)
Theorem remarks_are_append_only tr w :
  remarks w `prefix_of` remarks (world_after tr w).
Proof.
  revert w. induction tr as [|[[env sid] ev] tr IH]; intros w; [done|].
  rewrite world_after_cons. etrans; [|apply IH].
  destruct (handle_remarks env sid ev w) as [-> | (? & ? & ? & ? & _ & _ & _ & ->)];
    [done|]. by apply prefix_app_r.
Qed.

(** ** Closure variables *)

Lemma all_or_none_cleared c : all_or_none (mkSocket c None None None).
Proof. by left. Qed.

Lemma all_or_none_set c r u ro :
  all_or_none (mkSocket c (Some r) (Some u) (Some ro)).
Proof. right. by repeat split; eexists. Qed.

Lemma all_or_none_closed s :
  all_or_none s →
  all_or_none (mkSocket false (currentRoom s) (currentUser s) (currentRole s)).
Proof. done. Qed.

Ltac solve_all_or_none Hw sid :=
  let x := fresh "x" in
  let s' := fresh "s'" in
  let Hx := fresh "Hx" in
  intros x s' Hx; simpl in *;
  first
    [ by eapply Hw
    | destruct (decide (x = sid)) as [->|?];
      [ repeat (rewrite lookup_insert_eq in Hx); simplify_eq;
        first [ apply all_or_none_cleared | apply all_or_none_set
              | apply all_or_none_closed; by eapply Hw ]
      | repeat (rewrite lookup_insert_ne in Hx by done); by eapply Hw ] ].

Lemma handle_keeps_all_or_none env sid ev w :
  (∀ x s, sockets w !! x = Some s → all_or_none s) →
  ∀ x s, sockets (handle env sid ev w).1.2 !! x = Some s → all_or_none s.
Proof.
  intros Hw. handle_cases env sid ev w s Hs Hc; solve_all_or_none Hw sid.
Qed.

Lemma reachable_all_or_none w sid s :
  reachable w → sockets w !! sid = Some s → all_or_none s.
Proof.
  intros [tr ->]. revert sid s.
  assert (Hboot : ∀ x s, sockets boot !! x = Some s → all_or_none s).
  { intros x s Hx. simpl in Hx. by simplify_map_eq. }
  revert Hboot. generalize boot.
  induction tr as [|[[env sid0] ev] tr IH]; intros w Hw sid s; [by apply Hw|].
  rewrite world_after_cons. apply IH. by apply handle_keeps_all_or_none.
Qed.

(** X8.  After any sequence of events from the start, the three closure
    variables of every socket are all [null] or all set: [join] assigns the
    three and handleUserExit clears the three. *)
Theorem closure_variables_all_or_none tr sid s :
  sockets (world_after tr boot) !! sid = Some s → all_or_none s.
Proof. apply reachable_all_or_none. by exists tr. Qed.

Lemma closure_variables_all_or_none_witness :
  all_or_none (mkSocket true (Some "R1") (Some "bob") (Some "Tester")).
Proof.
  apply (closure_variables_all_or_none (take 4 scenario) "B").
  vm_compute. reflexivity.
Defined.

(** X9.  Every Remark stored in a world the server can reach was written by
    a Tester: its role is "Tester", its userName is set, and it is
    unresolved; no handler stores any other Remark or resolves one. *)
Theorem stored_remarks_are_by_testers tr rk :
  rk ∈ remarks (world_after tr boot) →
  role rk = Some "Tester" ∧ is_Some (userName rk) ∧ resolved rk = false.
Proof.
  assert (Hgen : ∀ tr w,
    reachable w →
    (∀ r, r ∈ remarks w →
          role r = Some "Tester" ∧ is_Some (userName r) ∧ resolved r = false) →
    ∀ r, r ∈ remarks (world_after tr w) →
         role r = Some "Tester" ∧ is_Some (userName r) ∧ resolved r = false).
  { clear. induction tr as [|[[env sid] ev] tr IH]; intros w Hreach Hw; [done|].
    rewrite world_after_cons. apply IH.
    - destruct Hreach as [tr0 ->]. exists (tr0 ++ [(env, sid, ev)]).
      unfold world_after. clear.
      generalize boot. induction tr0 as [|[[e0 s0] ev0] tr0 IH]; intros w; simpl.
      + by destruct (handle env sid ev w) as [[? ?] ?].
      + destruct (handle e0 s0 ev0 w) as [[? w1] ?]. specialize (IH w1).
        destruct (run tr0 w1), (run (tr0 ++ [(env, sid, ev)]) w1). done.
    - destruct (handle_remarks env sid ev w)
        as [-> | (rid & txt & ln & s & _ & Hs & Hrole & ->)]; [done|].
      intros r Hr. apply elem_of_app in Hr as [Hr|Hr]; [by apply Hw|].
      apply list_elem_of_singleton in Hr as ->. simpl.
      repeat split; try done.
      destruct (reachable_all_or_none w sid s Hreach Hs)
        as [(_ & _ & Hnone) | (_ & Huser & _)]; [congruence|done]. }
  apply Hgen.
  - by exists [].
  - intros r Hr. simpl in Hr. by apply elem_of_nil in Hr.
Qed.

Lemma stored_remarks_are_by_testers_witness :
  role (mkRemark "R1" (Some "bob") (Some "Tester") "check this" 1 6 false)
    = Some "Tester" ∧
  is_Some (userName (mkRemark "R1" (Some "bob") (Some "Tester") "check this" 1 6 false)) ∧
  resolved (mkRemark "R1" (Some "bob") (Some "Tester") "check this" 1 6 false) = false.
Proof.
  apply (stored_remarks_are_by_testers scenario).
  vm_compute. apply list_elem_of_singleton. reflexivity.
Defined.

(** ** Runs, step by step *)

Lemma world_after_app tr1 tr2 w :
  world_after (tr1 ++ tr2) w = world_after tr2 (world_after tr1 w).
Proof.
  revert w. induction tr1 as [|[[env sid] ev] tr1 IH]; intros w; [done|].
  simpl. by rewrite !world_after_cons, IH.
Qed.

Lemma world_after_snoc tr env sid ev w :
  world_after (tr ++ [(env, sid, ev)]) w
  = (handle env sid ev (world_after tr w)).1.2.
Proof. by rewrite world_after_app, world_after_cons. Qed.

Lemma reachable_step env sid ev w :
  reachable w → reachable (handle env sid ev w).1.2.
Proof.
  intros [tr ->]. exists (tr ++ [(env, sid, ev)]). by rewrite world_after_snoc.
Qed.

(** ** Where Rooms and their users come from *)

(** X10.  A Room exists only if some [join] named its roomId, and every
    userName it lists joined it: in a run from the start, a stored Room has
    a [join] event for its roomId in the run, and each of its users has a
    [join] event for that roomId under that name. *)
Theorem rooms_come_from_joins tr rid room :
  rooms (world_after tr boot) !! rid = Some room →
  (∃ env sid user ro, (env, sid, join rid user ro) ∈ tr) ∧
  (∀ user, user ∈ users room →
           ∃ env sid ro, (env, sid, join rid user ro) ∈ tr).
Proof.
  revert rid room. induction tr as [|[[env sid] ev] tr IH] using rev_ind;
    intros rid room Hr.
  { simpl in Hr. by simplify_map_eq. }
  rewrite world_after_snoc in Hr.
  assert (Hold : ∀ room0, rooms (world_after tr boot) !! rid = Some room0 →
    (∃ e x user ro, (e, x, join rid user ro) ∈ tr ++ [(env, sid, ev)]) ∧
    (∀ user, user ∈ users room0 →
       ∃ e x ro, (e, x, join rid user ro) ∈ tr ++ [(env, sid, ev)])).
  { intros room0 Hr0. destruct (IH rid room0 Hr0) as [(e & x & u & r & Hin) Hus].
    split.
    - exists e, x, u, r. apply elem_of_app. by left.
    - intros user Hu. destruct (Hus user Hu) as (e' & x' & r' & Hin').
      exists e', x', r'. apply elem_of_app. by left. }
  destruct (handle_rooms env sid ev (world_after tr boot))
    as [Heq | (r & new & Heq & Hw)]; rewrite Heq in Hr; [by apply Hold|].
  destruct (decide (r = rid)) as [->|Hne].
  2:{ rewrite lookup_insert_ne in Hr by done. by apply Hold. }
  rewrite lookup_insert_eq in Hr. injection Hr as <-.
  assert (Hhere : ∀ user ro, ev = join rid user ro →
            (env, sid, join rid user ro) ∈ tr ++ [(env, sid, ev)]).
  { intros user ro ->. apply elem_of_app. right. by apply list_elem_of_singleton. }
  destruct (rooms (world_after tr boot) !! rid) as [old|] eqn:Ho;
    inversion Hw; subst; simpl.
  - (* pushed *)
    destruct (Hold old eq_refl) as [Hjoin Hus]. split; [done|].
    intros u Hu. apply elem_of_app in Hu as [Hu|Hu]; [by apply Hus|].
    apply list_elem_of_singleton in Hu as ->. eexists _, _, _. by apply Hhere.
  - by apply Hold.
  - by apply Hold.
  - (* pulled *)
    destruct (Hold old eq_refl) as [Hjoin Hus]. split; [done|].
    intros u Hu. apply elem_of_pull in Hu as [Hu _]. by apply Hus.
  - (* created *)
    split; [eexists _, _, _, _; by apply Hhere|].
    intros u Hu. apply list_elem_of_singleton in Hu as ->.
    eexists _, _, _. by apply Hhere.
Qed.

Lemma rooms_come_from_joins_witness :
  ∃ env sid ro, (env, sid, join "R1" "bob" ro) ∈ take 4 scenario.
Proof.
  destruct (rooms_come_from_joins (take 4 scenario) "R1"
              (mkRoom ["alice"; "bob"] "" "javascript")) as [_ Hus].
  - vm_compute. reflexivity.
  - apply Hus. simpl. by apply (bool_decide_unpack _).
Defined.

(** ** Who receives, and what *)

Lemma in_adapter_close_inv (ad : gset (string * string)) sid x room :
  (x, room) ∈ filter (λ p : string * string, p.1 ≠ sid) ad →
  x ≠ sid ∧ (x, room) ∈ ad.
Proof. intros H. by apply elem_of_filter in H. Qed.

Ltac solve_online Hw sid :=
  match goal with
  | |- online _ ?y =>
      unfold online in *; simpl in *;
      first
        [ done
        | by eapply Hw
        | rewrite ?lookup_insert_eq; by eexists
        | destruct (decide (y = sid)) as [->|?];
          [ first [ done | rewrite ?lookup_insert_eq; by eexists ]
          | rewrite ?lookup_insert_ne by done; by eapply Hw ] ]
  end.

(** Every pair of the adapter is about a connected socket. *)
Lemma handle_keeps_adapter_online env sid ev w :
  (∀ x room, (x, room) ∈ adapter w → online w x) →
  ∀ x room, (x, room) ∈ adapter (handle env sid ev w).1.2 →
            online (handle env sid ev w).1.2 x.
Proof.
  intros Hw.
  handle_cases env sid ev w s Hs Hc;
    intros x room Hin; simpl in *;
    repeat match goal with
    | H : _ ∈ _ ∖ _ |- _ => apply elem_of_difference in H as [H _]
    | H : _ ∈ filter _ _ |- _ => apply in_adapter_close_inv in H as [? H]
    | H : _ ∈ _ ∪ _ |- _ => apply elem_of_union in H as [H|H]
    | H : _ ∈ {[ _ ]} |- _ => apply elem_of_singleton in H; simplify_eq
    end;
    solve_online Hw sid.
Qed.

Lemma reachable_adapter_online w x room :
  reachable w → (x, room) ∈ adapter w → online w x.
Proof.
  intros [tr ->]. revert x room.
  assert (Hboot : ∀ x room, (x, room) ∈ adapter boot → online boot x).
  { intros x room Hin. simpl in Hin. by apply not_elem_of_empty in Hin. }
  revert Hboot. generalize boot.
  induction tr as [|[[env sid0] ev] tr IH]; intros w Hw x room; [by apply Hw|].
  rewrite world_after_cons. apply IH. by apply handle_keeps_adapter_online.
Qed.

(** X12.  No emission goes to a closed or unknown socket: in a world the
    server can reach, every receiver of every emission of an event is a
    socket that is connected when the handler is done. *)
Theorem emissions_reach_connected_sockets env sid ev w d x :
  reachable w →
  d ∈ (handle env sid ev w).2 → x ∈ receivers d →
  online (handle env sid ev w).1.2 x.
Proof.
  intros Hreach.
  assert (Hw : ∀ x room, (x, room) ∈ adapter w → online w x).
  { intros y room. by apply reachable_adapter_online. }
  revert d x.
  handle_cases env sid ev w s Hs Hc;
    intros d x Hd Hx; simpl in *;
    try (by apply elem_of_nil in Hd);
    repeat (apply elem_of_cons in Hd as [->|Hd]);
    try (by apply elem_of_nil in Hd);
    simpl in Hx;
    repeat match goal with
    | H : _ ∈ _ ∖ _ |- _ => apply elem_of_difference in H as [H _]
    | H : _ ∈ in_room _ _ |- _ => apply elem_of_in_room in H
    | H : _ ∈ filter _ _ |- _ => apply in_adapter_close_inv in H as [? H]
    | H : _ ∈ _ ∪ _ |- _ => apply elem_of_union in H as [H|H]
    | H : _ ∈ {[ _ ]} |- _ => apply elem_of_singleton in H; simplify_eq
    end;
    solve_online Hw sid.
Qed.

Lemma emissions_reach_connected_sockets_witness :
  online (handle (up 5) "A" (codeChange "R1" "print(1)") world_with_tester).1.2 "B".
Proof.
  apply (emissions_reach_connected_sockets (up 5) "A" (codeChange "R1" "print(1)")
           world_with_tester
           (mkDelivery (socket_to "A" "R1") (codeUpdate "print(1)") {["B"]})).
  - by exists (take 4 scenario).
  - vm_compute. apply list_elem_of_singleton. reflexivity.
  - simpl. by apply elem_of_singleton.
Defined.



(** ** Joining and leaving *)




Lemma join_result env sid w s rid user ro :
  sockets w !! sid = Some s → connected s = true → store_up env →
  let room := match rooms w !! rid with
              | None => new_Room user
              | Some room =>
                  if bool_decide (user ∈ users room) then room
                  else mkRoom (users room ++ [user]) (code room) (language room)
              end in
  (handle env sid (join rid user ro) w).1.2
  = mkWorld (<[rid := room]> (rooms w)) (remarks w)
      (<[sid := mkSocket true (Some rid) (Some user) (Some ro)]> (sockets w))
      ({[(sid, rid)]} ∪ adapter w).
Proof.
  intros Hs Hc [Hf Hw]. simpl.
  rewrite (handle_listener _ _ _ _ s) by done. simpl.
  run_handler. rewrite Hf, Hw, Hs. simpl. by rewrite Hc.
Qed.

Lemma truthy_set x : x ≠ "" → truthy (Some x) = Some x.
Proof. intros Hx. simpl. by rewrite bool_decide_eq_false_2. Qed.



Lemma truthy_is_set v x : truthy v = Some x → v = Some x.
Proof.
  destruct v as [y|]; simpl; [|done]. case_bool_decide; [done|]. by intros [= ->].
Qed.

(** X15.  Membership goes by name, not by connection.  Two connected
    sockets are joined to one Room, of a roomId that is not empty, under the
    same userName, which is not empty either; one of them sends
    [leaveRoom], the store answering: the Room no longer lists the name,
    while the other socket is still joined to the Room under it, its closure
    variables unchanged. *)
Theorem leave_removes_name_of_namesake env sid other w s s' rid user old :
  sid ≠ other →
  sockets w !! sid = Some s → connected s = true →
  currentRoom s = Some rid → currentUser s = Some user →
  rid ≠ "" → user ≠ "" →
  sockets w !! other = Some s' → connected s' = true →
  currentRoom s' = Some rid → currentUser s' = Some user →
  write_ok env = true → rooms w !! rid = Some old →
  let w' := (handle env sid leaveRoom w).1.2 in
  (∃ room, rooms w' !! rid = Some room ∧ user ∉ users room) ∧
  sockets w' !! other = Some s'.
Proof.
  intros Hne Hs Hc Hroom Huser Hrid Hu Hs' Hc' Hroom' Huser' Hw Hr. simpl.
  rewrite (exit_removes_user env sid w s rid user); try done.
  2:{ rewrite Hroom. by apply truthy_set. }
  2:{ rewrite Huser. by apply truthy_set. }
  rewrite Hr. simpl. split.
  - eexists. rewrite lookup_insert_eq. split; [done|]. simpl.
    intros Hin. by apply elem_of_pull in Hin as [_ Hin].
  - by rewrite lookup_insert_ne.
Qed.

Lemma leave_removes_name_of_namesake_witness :
  (∃ room, rooms (handle (up 5) "A" leaveRoom world_with_namesakes).1.2 !! "R1"
           = Some room ∧ "sam" ∉ users room) ∧
  sockets (handle (up 5) "A" leaveRoom world_with_namesakes).1.2 !! "B"
  = Some (mkSocket true (Some "R1") (Some "sam") (Some "Tester")).
Proof.
  apply (leave_removes_name_of_namesake (up 5) "A" "B" world_with_namesakes
           (mkSocket true (Some "R1") (Some "sam") (Some "Developer"))
           (mkSocket true (Some "R1") (Some "sam") (Some "Tester"))
           "R1" "sam" (mkRoom ["sam"] "" "javascript"));
    try reflexivity; try discriminate; vm_compute; reflexivity.
Defined.

(** X16.  A socket that joins a second Room without leaving the first stays
    a member of the first.  A connected socket sends [join] for another
    roomId than the first, with a roomId and a userName that are not empty,
    and then [leaveRoom], the store answering both times.  Afterwards the
    first Room is stored as it was (so it still lists the name), the socket
    is still in the first Socket.IO room if it was (so it still receives
    what is emitted there), and its closure variables are cleared: no later
    exit of this socket pulls the name from the first Room. *)
Theorem switching_rooms_keeps_old_membership e1 e2 sid w s r1 r2 user ro :
  sockets w !! sid = Some s → connected s = true →
  r1 ≠ r2 → r2 ≠ "" → user ≠ "" →
  store_up e1 → write_ok e2 = true →
  let w' := world_after [(e1, sid, join r2 user ro); (e2, sid, leaveRoom)] w in
  rooms w' !! r1 = rooms w !! r1 ∧
  ((sid, r1) ∈ adapter w → (sid, r1) ∈ adapter w') ∧
  sockets w' !! sid = Some (mkSocket true None None None).
Proof.
  intros Hs Hc Hne Hr2 Hu Hup Hw2. simpl.
  rewrite !world_after_cons. unfold world_after at 1 2 3. simpl.
  rewrite (join_result e1 sid w s) by done.
  rewrite (exit_removes_user e2 sid _
             (mkSocket true (Some r2) (Some user) (Some ro)) r2 user);
    simpl; try done; try (by rewrite lookup_insert_eq); try (by apply truthy_set).
  rewrite lookup_insert_eq. simpl.
  rewrite lookup_insert_eq, !lookup_insert_ne by done.
  repeat split; try done.
  intros Hin. apply elem_of_difference. split.
  - apply elem_of_union. by right.
  - intros Heq. apply elem_of_singleton in Heq. by simplify_eq.
Qed.

Lemma switching_rooms_keeps_old_membership_witness :
  rooms (world_after [(up 8, "B", join "R2" "bob" "Tester"); (up 9, "B", leaveRoom)]
           world_with_tester) !! "R1"
  = Some (mkRoom ["alice"; "bob"] "" "javascript").
Proof.
  assert (Hs : sockets world_with_tester !! "B"
               = Some (mkSocket true (Some "R1") (Some "bob") (Some "Tester")))
    by (vm_compute; reflexivity).
  assert (H12 : "R1" ≠ "R2") by discriminate.
  assert (H2 : "R2" ≠ "") by discriminate.
  assert (Hu : "bob" ≠ "") by discriminate.
  destruct (switching_rooms_keeps_old_membership (up 8) (up 9) "B" world_with_tester
              _ "R1" "R2" "bob" "Tester" Hs eq_refl H12 H2 Hu
              (conj eq_refl eq_refl) eq_refl) as (Hroom & _ & _).
  rewrite Hroom. vm_compute. reflexivity.
Defined.

(** X17.  The exit cleanup runs once.  After a [leaveRoom] whose store call
    answered, a second [leaveRoom] of the same socket changes nothing and
    emits nothing, and its [disconnect] touches no document and emits
    nothing. *)
Theorem second_exit_is_noop e1 e2 sid w :
  write_ok e1 = true →
  let w1 := (handle e1 sid leaveRoom w).1.2 in
  handle e2 sid leaveRoom w1 = (Returned (), w1, []) ∧
  (handle e2 sid disconnect w1).2 = [] ∧
  rooms (handle e2 sid disconnect w1).1.2 = rooms w1 ∧
  remarks (handle e2 sid disconnect w1).1.2 = remarks w1.
Proof.
  intros Hw1. simpl.
  destruct (sockets w !! sid) as [s|] eqn:Hs.
  2:{ unfold handle. rewrite Hs. simpl. by rewrite Hs. }
  destruct (connected s) eqn:Hc.
  2:{ rewrite (handle_gone e1 sid leaveRoom w s) by done. simpl.
      by rewrite !(handle_gone _ sid _ w s) by done. }
  destruct (truthy (currentRoom s)) as [room|] eqn:Hroom.
  2:{ assert (Hsame : handle e1 sid leaveRoom w = (Returned (), w, [])).
      { rewrite (handle_listener _ _ _ _ s) by done. simpl.
        run_handler. rewrite Hs. simpl. by rewrite Hroom. }
      rewrite Hsame. simpl.
      rewrite !(handle_listener _ _ _ _ s) by done. simpl.
      run_handler. rewrite Hs. simpl. rewrite Hroom.
      rewrite lookup_insert_eq. simpl. by rewrite Hroom. }
  destruct (truthy (currentUser s)) as [user|] eqn:Huser.
  2:{ assert (Hsame : handle e1 sid leaveRoom w = (Returned (), w, [])).
      { rewrite (handle_listener _ _ _ _ s) by done. simpl.
        run_handler. rewrite Hs. simpl. by rewrite Hroom, Huser. }
      rewrite Hsame. simpl.
      rewrite !(handle_listener _ _ _ _ s) by done. simpl.
      run_handler. rewrite Hs. simpl. rewrite Hroom, Huser.
      rewrite lookup_insert_eq. simpl. by rewrite Hroom, Huser. }
  rewrite (exit_removes_user e1 sid w s room user) by done.
  destruct (rooms w !! room) as [old|]; simpl.
  - destruct (exit_unjoined_is_noop e2 sid
        (mkWorld (<[room := mkRoom (pull user (users old)) (code old) (language old)]>
                    (rooms w)) (remarks w)
                 (<[sid := mkSocket true None None None]> (sockets w))
                 (adapter w ∖ {[(sid, room)]}))
        (mkSocket true None None None)) as (Hleave & w' & Hdis & Hrooms & Hrks);
      try done; [by simpl; rewrite lookup_insert_eq|].
    rewrite Hleave, Hdis. by simpl in *.
  - destruct (exit_unjoined_is_noop e2 sid
        (mkWorld (rooms w) (remarks w)
                 (<[sid := mkSocket true None None None]> (sockets w))
                 (adapter w ∖ {[(sid, room)]}))
        (mkSocket true None None None)) as (Hleave & w' & Hdis & Hrooms & Hrks);
      try done; [by simpl; rewrite lookup_insert_eq|].
    rewrite Hleave, Hdis. by simpl in *.
Qed.

Lemma second_exit_is_noop_witness :
  handle (up 9) "B" leaveRoom (handle (up 8) "B" leaveRoom world_with_tester).1.2
  = (Returned (), (handle (up 8) "B" leaveRoom world_with_tester).1.2, []).
Proof.
  destruct (second_exit_is_noop (up 8) (up 9) "B" world_with_tester) as [Hleave _].
  - reflexivity.
  - apply Hleave.
Defined.

(** ** Rooms are independent *)

(** X18.  A Room is written only by events that are about it: an event
    that neither names its roomId ([join], [codeChange], [languageChange])
    nor is the exit of a socket whose [currentRoom] it is leaves the stored
    Room exactly as it was.  [remark:add] and [connection] write no Room. *)
Theorem other_rooms_untouched env sid ev w rid :
  ¬ touches w sid rid ev →
  rooms (handle env sid ev w).1.2 !! rid = rooms w !! rid.
Proof.
  intros Hnot.
  assert (Hexit : ∀ s room, sockets w !! sid = Some s →
            truthy (currentRoom s) = Some room → ev = leaveRoom ∨ ev = disconnect →
            room ≠ rid).
  { intros s0 room Hs0 Hroom Hev ->. apply Hnot. apply truthy_is_set in Hroom.
    destruct Hev as [-> | ->]; by exists s0. }
  handle_cases env sid ev w s Hs Hc; try done;
    try (rewrite lookup_insert_ne; [done|]);
    try (intros ->; by apply Hnot);
    try (eapply Hexit; eauto).
Qed.

Lemma other_rooms_untouched_witness :
  rooms (handle (up 8) "B" (join "R2" "bob" "Tester") world_with_tester).1.2 !! "R1"
  = rooms world_with_tester !! "R1".
Proof.
  apply (other_rooms_untouched (up 8) "B" (join "R2" "bob" "Tester")
           world_with_tester "R1").
  simpl. discriminate.
Defined.

(** X19.  The code and the language of a Room are overwritten, latest write
    last.  With the store answering and two connected editors: after two
    [codeChange]s on one Room the Rooms are as after the second alone, and a
    [codeChange] and a [languageChange] give the same Rooms in either
    order. *)
Theorem last_write_wins e1 e2 sid1 sid2 w s1 s2 rid c1 c2 lang :
  sockets w !! sid1 = Some s1 → connected s1 = true → may_edit s1 = true →
  sockets w !! sid2 = Some s2 → connected s2 = true → may_edit s2 = true →
  store_up e1 → store_up e2 →
  rooms (world_after [(e1, sid1, codeChange rid c1); (e2, sid2, codeChange rid c2)] w)
  = rooms (world_after [(e2, sid2, codeChange rid c2)] w) ∧
  rooms (world_after [(e1, sid1, codeChange rid c1); (e2, sid2, languageChange rid lang)] w)
  = rooms (world_after [(e2, sid2, languageChange rid lang); (e1, sid1, codeChange rid c1)] w).
Proof.
  intros Hs1 Hc1 He1 Hs2 Hc2 He2 [Hf1 Hw1] [Hf2 Hw2].
  rewrite !world_after_cons. unfold world_after. simpl.
  assert (Hcode : ∀ env sid s c w0,
    sockets w0 !! sid = Some s → connected s = true → may_edit s = true →
    store_up env →
    (handle env sid (codeChange rid c) w0).1.2
    = match rooms w0 !! rid with
      | Some room => mkWorld (<[rid := mkRoom (users room) c (language room)]> (rooms w0))
                       (remarks w0) (sockets w0) (adapter w0)
      | None => w0
      end).
  { intros env sid s c w0 Hs Hc He [Hf Hw].
    rewrite (handle_listener _ _ _ _ s) by done. simpl.
    run_handler. rewrite Hs. simpl. rewrite He, Hf. simpl.
    destruct (rooms w0 !! rid); [|done]. by rewrite Hw. }
  assert (Hlang : ∀ env sid s l w0,
    sockets w0 !! sid = Some s → connected s = true → may_edit s = true →
    store_up env →
    (handle env sid (languageChange rid l) w0).1.2
    = match rooms w0 !! rid with
      | Some room => mkWorld (<[rid := mkRoom (users room) (code room) l]> (rooms w0))
                       (remarks w0) (sockets w0) (adapter w0)
      | None => w0
      end).
  { intros env sid s l w0 Hs Hc He [Hf Hw].
    rewrite (handle_listener _ _ _ _ s) by done. simpl.
    run_handler. rewrite Hs. simpl. rewrite He, Hf. simpl.
    destruct (rooms w0 !! rid); [|done]. by rewrite Hw. }
  rewrite (Hcode e1 sid1 s1 c1 w), (Hcode e2 sid2 s2 c2 w),
    (Hlang e2 sid2 s2 lang w) by done.
  destruct (rooms w !! rid) as [room|] eqn:Hr.
  - rewrite (Hcode e2 sid2 s2 c2), (Hlang e2 sid2 s2 lang), (Hcode e1 sid1 s1 c1)
      by done.
    simpl. rewrite !lookup_insert_eq. simpl.
    by rewrite !insert_insert_eq.
  - rewrite (Hcode e2 sid2 s2 c2), (Hlang e2 sid2 s2 lang), (Hcode e1 sid1 s1 c1)
      by done.
    by rewrite Hr.
Qed.

Lemma last_write_wins_witness :
  rooms (world_after [(up 8, "A", codeChange "R1" "a"); (up 9, "A", codeChange "R1" "b")]
           world_with_tester)
  = rooms (world_after [(up 9, "A", codeChange "R1" "b")] world_with_tester).
Proof.
  assert (Hs : sockets world_with_tester !! "A"
               = Some (mkSocket true (Some "R1") (Some "alice") (Some "Admin")))
    by (vm_compute; reflexivity).
  apply (last_write_wins (up 8) (up 9) "A" "A" world_with_tester _ _ "R1" "a" "b"
           "python" Hs eq_refl eq_refl Hs eq_refl eq_refl
           (conj eq_refl eq_refl) (conj eq_refl eq_refl)).
Defined.

(** ** The role a join declares *)

(** X20.  The role is the one the [join] payload declares, whatever role
    the socket had before and whatever Room it joins.  A connected socket
    sends [join] with role "Developer" for any roomId and then [codeChange]
    for any existing Room, the store answering both times: the code of that
    Room is the one sent. *)
Theorem declared_role_opens_every_room e1 e2 sid w s rid user target room c :
  sockets w !! sid = Some s → connected s = true →
  store_up e1 → store_up e2 → rooms w !! target = Some room →
  ∃ room',
    rooms (world_after [(e1, sid, join rid user "Developer");
                        (e2, sid, codeChange target c)] w) !! target = Some room' ∧
    code room' = c.
Proof.
  intros Hs Hc Hup1 Hup Hr.
  rewrite !world_after_cons. unfold world_after. simpl.
  set (w1 := (handle e1 sid (join rid user "Developer") w).1.2).
  assert (Hs1 : sockets w1 !! sid
                = Some (mkSocket true (Some rid) (Some user) (Some "Developer"))).
  { unfold w1. rewrite (join_result e1 sid w s) by done. simpl.
    by rewrite lookup_insert_eq. }
  destruct (handle_keeps_room e1 sid (join rid user "Developer") w target)
    as [room1 Hr1]; [by eexists|]. fold w1 in Hr1.
  destruct (edit_writes_document e2 sid w1 _ target room1 c "" Hs1) as [Hcode _];
    try done.
  eexists. by split.
Qed.

Lemma declared_role_opens_every_room_witness :
  ∃ room',
    rooms (world_after [(up 8, "B", join "R9" "bob" "Developer");
                        (up 9, "B", codeChange "R1" "mine")] world_with_tester)
      !! "R1" = Some room' ∧
    code room' = "mine".
Proof.
  assert (Hs : sockets world_with_tester !! "B"
               = Some (mkSocket true (Some "R1") (Some "bob") (Some "Tester")))
    by (vm_compute; reflexivity).
  assert (Hr : rooms world_with_tester !! "R1"
               = Some (mkRoom ["alice"; "bob"] "" "javascript"))
    by (vm_compute; reflexivity).
  apply (declared_role_opens_every_room (up 8) (up 9) "B" world_with_tester
           _ "R9" "bob" "R1" _ "mine" Hs eq_refl
           (conj eq_refl eq_refl) (conj eq_refl eq_refl) Hr).
Defined.

(** ** The process *)

(** What [serve] handles is a prefix of the events, handled as [run] handles
    them: the worlds of [serve] are worlds of [run], and what holds after
    every run holds as long as the process is up and in the store it leaves
    behind. *)
Lemma serve_is_run_of_prefix tr : ∀ w,
  ∃ tr', tr' `prefix_of` tr ∧
         (serve tr w).1.2 = world_after tr' w ∧
         (serve tr w).2 = (run tr' w).2 ∧
         ((serve tr w).1.1 = true → tr' = tr).
Proof.
  induction tr as [|[[env sid] ev] tr IH]; intros w.
  - exists []. by repeat split.
  - simpl. destruct (handle env sid ev w) as [[c w1] out1] eqn:Hh.
    destruct c as [[]|].
    + destruct (IH w1) as (tr' & Hpre & Hw & Hout & Halive).
      exists ((env, sid, ev) :: tr').
      destruct (serve tr w1) as [[alive w2] out2] eqn:Hserve. simpl in *.
      split; [by apply prefix_cons|].
      rewrite world_after_cons, Hh. simpl. split; [done|].
      unfold world_after in Hw. destruct (run tr' w1) as [w3 out3]. simpl in *.
      split; [by subst|]. intros Ha. by rewrite Halive.
    + exists [(env, sid, ev)]. simpl.
      split; [apply prefix_cons, prefix_nil|].
      unfold world_after. simpl. rewrite Hh. simpl.
      split; [done|]. split; [by rewrite app_nil_r|done].
Qed.

Lemma served_is_reachable tr : reachable (serve tr boot).1.2.
Proof.
  destruct (serve_is_run_of_prefix tr boot) as (tr' & _ & Hw & _).
  by exists tr'.
Qed.

End CollabProps.

(** * Properties of accounts and tokens *)

Module AuthProps.
Import Auth.

Lemma split_space_not_nil s : split_space s ≠ [].
Proof.
  destruct s as [|c rest]; simpl; [done|].
  case_bool_decide; [done|]. by destruct (split_space rest).
Qed.

Lemma split_space_field scheme rest :
  spaceless scheme = true →
  split_space (header scheme rest) = scheme :: split_space rest.
Proof.
  unfold header. induction scheme as [|c scheme IH]; simpl; intros Hs.
  - done.
  - apply andb_true_iff in Hs as [Hc Hs].
    apply negb_true_iff in Hc. rewrite Hc. by rewrite IH.
Qed.

Section Routes.

Variable hash : string → string → string.
Variable compare : string → string → bool.
Variable sign : Z → Claims → string.
Variable verify : Z → string → option Claims.

Lemma bearer_field scheme rest u :
  spaceless scheme = true →
  bearer (mkReq (Some (header scheme rest)) u) = head (split_space rest).
Proof.
  intros Hs. unfold bearer. simpl. rewrite split_space_field by done.
  by destruct (split_space rest).
Qed.

(** X22.  [authMiddleware] does not look at the scheme of the header: the
    token is whatever stands between the first and the second space, and
    [/api/admin-only] answers a header "<any word> <rest>" as it answers
    "Bearer <rest>". *)
Theorem auth_scheme_is_not_checked now scheme rest u u' :
  spaceless scheme = true →
  bearer (mkReq (Some (header scheme rest)) u) = head (split_space rest) ∧
  admin_only verify now (mkReq (Some (header scheme rest)) u)
  = admin_only verify now (mkReq (Some (header "Bearer" rest)) u').
Proof.
  intros Hs. split; [by apply bearer_field|].
  unfold admin_only, authMiddleware.
  rewrite (bearer_field scheme rest u Hs), (bearer_field "Bearer" rest u' eq_refl).
  destruct (truthy (head (split_space rest))) as [tok|]; [|done].
  destruct (verify now tok) as [c|]; [|done].
  unfold checkRole. simpl. by case_bool_decide.
Qed.

(** X23.  [/api/admin-only] greets exactly the bearers of a token that
    verifies and carries the role "Admin", by the name in the token; what
    [req.user] held before is of no account.  Behind [authMiddleware] the
    "Unauthorized" reply of [checkRole] is never sent, and the handler
    never throws. *)
Theorem admin_only_greets_only_admins now req m :
  (admin_only verify now req = json 200 "message" m ↔
   ∃ tok c, truthy (bearer req) = Some tok ∧ verify now tok = Some c ∧
            token_role c = "Admin" ∧ m = ("Hello Admin " ++ token_userName c)%string) ∧
  admin_only verify now req ≠ json 401 "error" "Unauthorized" ∧
  admin_only verify now req ≠ unhandled.
Proof.
  unfold admin_only, authMiddleware, checkRole.
  destruct (truthy (bearer req)) as [tok|]; simpl.
  2:{ split; [|done]. split; [done|]. by intros (? & ? & ? & _). }
  destruct (verify now tok) as [c|] eqn:Hv; simpl.
  2:{ split; [|done]. split; [done|].
      intros (? & ? & [= <-] & ? & _). congruence. }
  case_bool_decide as Hrole; simpl.
  - split; [|done]. split.
    + intros [= <-]. by exists tok, c.
    + intros (? & ? & [= <-] & Hv' & _ & ->). congruence.
  - split; [|done]. split; [done|].
    intros (? & ? & [= <-] & Hv' & Hadmin & _). congruence.
Qed.

(** ** The User collection *)

Lemma register_appends salt ok body db :
  (register hash salt ok body db).2 = db ∨
  ∃ name mail p,
    (register hash salt ok body db).1 = json 201 "message" "User created successfully" ∧
    new_userName body = Some name ∧ new_email body = Some mail ∧
    new_password body = Some p ∧
    name ≠ "" ∧ mail ≠ "" ∧ hash salt p ≠ "" ∧
    default "Developer" (new_role body) ∈ roles ∧
    (name ∉ userName <$> db) ∧ (mail ∉ email <$> db) ∧ ok = true ∧
    (register hash salt ok body db).2
    = db ++ [mkUser name mail (hash salt p) (default "Developer" (new_role body))].
Proof.
  unfold register.
  destruct (new_password body) as [p|]; [|by left].
  destruct (truthy (new_userName body)) as [name|] eqn:Hname; [|by left].
  destruct (truthy (new_email body)) as [mail|] eqn:Hmail; [|by left].
  destruct (truthy (Some (hash salt p))) as [h|] eqn:Hh; [|by left].
  case_bool_decide as Hrole; [|by left].
  destruct ok; [|by left].
  destruct (bool_decide (name ∈ userName <$> db)) eqn:Hn; [by left|].
  destruct (bool_decide (mail ∈ email <$> db)) eqn:Hm; [by left|].
  simpl. right.
  apply bool_decide_eq_false in Hn, Hm.
  assert (Hh' : hash salt p ≠ "").
  { simpl in Hh. by case_bool_decide. }
  destruct (new_userName body) as [name'|]; [|done]. simpl in Hname.
  destruct (new_email body) as [mail'|]; [|done]. simpl in Hmail.
  repeat case_bool_decide; simplify_eq.
  by exists name, mail, p.
Qed.

Lemma register_all_appends reqs : ∀ db, ∃ more, register_all hash reqs db = db ++ more.
Proof.
  induction reqs as [|[[salt ok] body] reqs IH]; intros db; simpl.
  - exists []. by rewrite app_nil_r.
  - destruct (register_appends salt ok body db)
      as [-> | (? & ? & ? & _ & _ & _ & _ & _ & _ & _ & _ & _ & _ & _ & ->)];
      [by apply IH|].
    destruct (IH (db ++ [mkUser x x0 (hash salt x1) (default "Developer" (new_role body))]))
      as [more ->].
    eexists. by rewrite <- app_assoc.
Qed.

Lemma register_keeps salt ok body db :
  well_kept db → well_kept (register hash salt ok body db).2.
Proof.
  intros (Hn & Hm & Hall).
  destruct (register_appends salt ok body db)
    as [-> | (name & mail & p & _ & _ & _ & _ & Hname & Hmail & Hh & Hrole & Hnn & Hnm & _ & ->)];
    [done|].
  unfold well_kept. rewrite !fmap_app. simpl. repeat split.
  - apply NoDup_app. repeat split; [done| |apply NoDup_singleton].
    intros x Hx Hx'. apply list_elem_of_singleton in Hx'. by subst.
  - apply NoDup_app. repeat split; [done| |apply NoDup_singleton].
    intros x Hx Hx'. apply list_elem_of_singleton in Hx'. by subst.
  - apply Forall_app. split; [done|].
    constructor; [by repeat split|constructor].
Qed.

(** X24.  Whatever bodies of strings are sent to [/api/register], in
    whatever order, a User collection that started empty never holds two
    users with one userName or one email, and every stored user has a
    non-empty userName, email and password hash and a role among "Admin",
    "Developer" and "Tester". *)
Theorem registered_users_stay_unique reqs :
  let db := register_all hash reqs [] in
  NoDup (userName <$> db) ∧ NoDup (email <$> db) ∧
  Forall (λ u, role u ∈ roles ∧ userName u ≠ "" ∧ email u ≠ "" ∧ passwordHash u ≠ "") db.
Proof.
  simpl. change (well_kept (register_all hash reqs [])).
  assert (Hstart : well_kept []).
  { repeat split; simpl; try apply NoDup_nil_2. by apply Forall_nil. }
  revert Hstart. generalize (@nil User).
  induction reqs as [|[[salt ok] body] reqs IH]; intros db Hdb; [done|].
  simpl. by apply IH, register_keeps.
Qed.

(** ** Logging in *)

Lemma findOne_email_first mail db u more :
  mail ∉ (email <$> db) → email u = mail →
  findOne_email mail (db ++ u :: more) = Some u.
Proof.
  intros Hnot Hu. unfold findOne_email.
  induction db as [|v db IH]; simpl.
  - by rewrite decide_True.
  - simpl in Hnot. apply not_elem_of_cons in Hnot as [Hv Hnot].
    rewrite decide_False by done.
    specialize (IH Hnot).
    destruct (list_find (λ u0, email u0 = mail) (db ++ u :: more)) as [[i w]|];
      simpl in *; by simplify_eq.
Qed.

Lemma login_of_registered salt body db more now name mail p :
  (register hash salt true body db).1 = json 201 "message" "User created successfully" →
  new_userName body = Some name → new_email body = Some mail →
  new_password body = Some p →
  compare p (hash salt p) = true →
  let role := default "Developer" (new_role body) in
  login compare sign now true mail (Some p)
    (register_all hash more (register hash salt true body db).2)
  = session (sign now (mkClaims name role)) role name.
Proof.
  intros Hok Hname Hmail Hp Hcmp. simpl.
  destruct (register_appends salt true body db)
    as [Hsame | (name' & mail' & p' & _ & Hn & Hm & Hp' & _ & _ & _ & _ & _ & Hnm & _ & Heq)].
  { exfalso. revert Hok Hsame. unfold register. rewrite Hp, Hname, Hmail. simpl.
    repeat case_bool_decide; simpl; try done.
    intros _ Happ. apply (f_equal length) in Happ.
    rewrite length_app in Happ. simpl in Happ. lia. }
  rewrite Hname in Hn. rewrite Hmail in Hm. rewrite Hp in Hp'. simplify_eq.
  rewrite Heq.
  destruct (register_all_appends more
              (db ++ [mkUser name' mail' (hash salt p')
                        (default "Developer" (new_role body))])) as [l ->].
  unfold login. rewrite <- app_assoc. simpl.
  rewrite (findOne_email_first mail' db _ l) by done. simpl.
  by rewrite Hcmp.
Qed.

(** X25.  Registering and logging in is a round trip.  After a
    registration that was answered 201, and whatever registrations follow,
    a login with the same email and password (the store answering, bcrypt
    recognising the password under its own hash) is granted a session, with
    the userName given and the role given, "Developer" if none was. *)
Theorem login_after_register salt body db more now name mail p :
  (register hash salt true body db).1 = json 201 "message" "User created successfully" →
  new_userName body = Some name → new_email body = Some mail →
  new_password body = Some p →
  compare p (hash salt p) = true →
  let role := default "Developer" (new_role body) in
  login compare sign now true mail (Some p)
    (register_all hash more (register hash salt true body db).2)
  = session (sign now (mkClaims name role)) role name.
Proof. apply login_of_registered. Qed.

(** X26.  A session is granted only on a match: the reply of a login is a
    session only if the first stored user with that email has a hash that
    bcrypt accepts for the password sent, and then the session carries that
    user's role and userName in the reply and in the token.  An unknown
    email and a wrong password are answered alike. *)
Theorem login_grants_only_on_match now ok mail password db :
  (∀ tok r n,
     login compare sign now ok mail password db = session tok r n →
     ∃ u p, u ∈ db ∧ findOne_email mail db = Some u ∧ email u = mail ∧
            password = Some p ∧ compare p (passwordHash u) = true ∧
            r = role u ∧ n = userName u ∧
            tok = sign now (mkClaims (userName u) (role u))) ∧
  (ok = true → mail ∉ (email <$> db) →
   login compare sign now ok mail password db = json 400 "error" "Invalid credentials") ∧
  (∀ u p, ok = true → findOne_email mail db = Some u → password = Some p →
          compare p (passwordHash u) = false →
          login compare sign now ok mail password db
          = json 400 "error" "Invalid credentials").
Proof.
  unfold login, findOne_email. repeat split.
  - intros tok r n. destruct ok; [|done].
    destruct (list_find (λ u, email u = mail) db) as [[i u]|] eqn:Hfind; [|done].
    simpl. destruct password as [p|]; [|done].
    destruct (compare p (passwordHash u)) eqn:Hcmp; [|done].
    intros [= <- <- <-]. apply list_find_Some in Hfind as (Hi & Hu & _).
    exists u, p. repeat split; try done. by eapply list_elem_of_lookup_2.
  - intros -> Hnot.
    destruct (list_find (λ u, email u = mail) db) as [[i u]|] eqn:Hfind; [|done].
    apply list_find_Some in Hfind as (Hi & Hu & _). exfalso. apply Hnot.
    apply list_elem_of_fmap. exists u. split; [done|]. by eapply list_elem_of_lookup_2.
  - intros u p -> Hfind -> Hcmp.
    destruct (list_find (λ u, email u = mail) db) as [[i v]|]; simpl in *; [|done].
    simplify_eq. by rewrite Hcmp.
Qed.

(** X27.  The role is the one given at registration, and it opens the
    admin route.  A registration with role "Admin" was answered 201; a login
    with its email and password then yields a token, and as long as that
    token verifies (tokens have no space), [/api/admin-only] greets its
    bearer by the registered userName. *)
Theorem registered_admin_is_greeted salt body db more issued now name mail p :
  (register hash salt true body db).1 = json 201 "message" "User created successfully" →
  new_userName body = Some name → new_email body = Some mail →
  new_password body = Some p → new_role body = Some "Admin" →
  compare p (hash salt p) = true →
  let token := sign issued (mkClaims name "Admin") in
  token ≠ "" → spaceless token = true →
  verify now token = Some (mkClaims name "Admin") →
  login compare sign issued true mail (Some p)
    (register_all hash more (register hash salt true body db).2)
  = session token "Admin" name ∧
  admin_only verify now (mkReq (Some (header "Bearer" token)) None)
  = json 200 "message" ("Hello Admin " ++ name)%string.
Proof.
  intros Hok Hname Hmail Hp Hrole Hcmp token Hne Hsp Hver. split.
  - rewrite (login_of_registered salt body db more issued name mail p) by done.
    by rewrite Hrole.
  - unfold admin_only, authMiddleware.
    rewrite (bearer_field "Bearer" token None eq_refl).
    assert (Hhead : head (split_space token) = Some token).
    { clear -Hsp. induction token as [|c t IH]; simpl in *; [done|].
      apply andb_true_iff in Hsp as [Hc Hsp]. apply negb_true_iff in Hc.
      rewrite Hc. specialize (IH Hsp).
      destruct (split_space t) as [|f fs]; simpl in *; by simplify_eq. }
    rewrite Hhead. simpl. rewrite bool_decide_eq_false_2 by done. by rewrite Hver.
Qed.

End Routes.

Lemma auth_scheme_is_not_checked_witness :
  admin_only toy_verify 0 (mkReq (Some "Basic t0k.en") None)
  = admin_only toy_verify 0 (mkReq (Some "Bearer t0k.en") None).
Proof.
  destruct (auth_scheme_is_not_checked toy_verify 0 "Basic" "t0k.en" None None)
    as [_ Hsame]; [reflexivity|]. apply Hsame.
Defined.

Lemma admin_only_greets_only_admins_witness :
  admin_only toy_verify 0 (mkReq (Some "Bearer t0k.en") None)
  = json 200 "message" "Hello Admin root".
Proof.
  destruct (admin_only_greets_only_admins toy_verify 0
              (mkReq (Some "Bearer t0k.en") None) "Hello Admin root") as [[_ Hgreet] _].
  apply Hgreet. exists "t0k.en", (mkClaims "root" "Admin"). by repeat split.
Defined.

Lemma login_after_register_witness :
  login toy_compare toy_sign 5 true "root@example.org" (Some "pw")
    (register_all toy_hash [] (register toy_hash "s4lt" true root_body []).2)
  = session (toy_sign 5 (mkClaims "root" "Admin")) "Admin" "root".
Proof.
  apply (login_after_register toy_hash toy_compare toy_sign "s4lt" root_body []
           [] 5 "root" "root@example.org" "pw"); reflexivity.
Defined.

Lemma login_grants_only_on_match_witness :
  ∃ u p, u ∈ (register toy_hash "s4lt" true root_body []).2 ∧
         findOne_email "root@example.org" (register toy_hash "s4lt" true root_body []).2
           = Some u ∧
         email u = "root@example.org" ∧
         Some "pw" = Some p ∧ toy_compare p (passwordHash u) = true ∧
         "Admin" = role u ∧ "root" = userName u ∧
         "t0k.en" = toy_sign 5 (mkClaims (userName u) (role u)).
Proof.
  destruct (login_grants_only_on_match toy_compare toy_sign 5 true
              "root@example.org" (Some "pw")
              (register toy_hash "s4lt" true root_body []).2) as [Hgrant _].
  apply Hgrant. reflexivity.
Defined.

Lemma registered_admin_is_greeted_witness :
  admin_only toy_verify 9 (mkReq (Some "Bearer t0k.en") None)
  = json 200 "message" "Hello Admin root".
Proof.
  assert (Hne : toy_sign 5 (mkClaims "root" "Admin") ≠ "") by discriminate.
  exact (proj2 (registered_admin_is_greeted toy_hash toy_compare toy_sign toy_verify
                  "s4lt" root_body [] [] 5 9 "root" "root@example.org" "pw"
                  eq_refl eq_refl eq_refl eq_refl eq_refl eq_refl
                  Hne eq_refl eq_refl)).
Defined.

End AuthProps.
